(** * alert-bot: the health-check and status-transition engine

    A shallow embedding of [ServerMonitoringBot] (index.js) and of the
    settings of [config.js], followed by the properties of the probe,
    of the per-target status record and of the notification flow.

    Conventions of the embedding.
    - JavaScript numbers that hold integers (status codes, counters,
      milliseconds) are [Z].
    - [this.serverStatus], a [Map] keyed by URL, is a [gmap string _].
    - An [async] method is a computation in the monad [M]: it threads the
      [World] (wall clock, status map, everything written to the console
      or sent over the network) and finishes either normally or by
      throwing, as a promise is fulfilled or rejected.
    - What the network answers is not decided by the program: every call
      of [axios.get] and [axios.post] takes its answer from an
      environment ([CheckEnv]).
    - Nothing keeps the cron job from calling a cycle while an earlier
      one is under way.  [cycle] and [runCycles] are cycles that run
      alone and one after the other; [running] is the step relation of
      all runs, with the checks of any number of cycles in flight. *)

From stdpp Require Import gmap strings list pretty.
From Stdlib Require Import ZArith Lia.

Open Scope Z_scope.

(** ** Data model *)

(** A property that may be missing from an object, hold [null], or hold
    a value. *)
Inductive Nullable (A : Type) : Type :=
  | Undefined
  | Null
  | Val (a : A).
Arguments Undefined {A}.
Arguments Null {A}.
Arguments Val {A} a.

Definition isPresent {A} (x : Nullable A) : bool :=
  match x with Val _ => true | _ => false end.

(** [x || d] for a string property: [undefined], [null] and the empty
    string are falsy. *)
Definition orElse (x : Nullable string) (d : string) : string :=
  match x with
  | Val s => if decide (s = "") then d else s
  | _ => d
  end.

(** The object stored per URL in [this.serverStatus].  [lastCheck] is
    [null] ([None]) until the first check; [statusCode] and
    [responseTime] are [None] when the object has no such property. *)
Record StatusRecord : Type := mkStatus {
  isUp : bool;
  lastCheck : option Z;
  consecutiveFailures : Z;
  statusCode : option Z;
  responseTime : option Z;
  error : Nullable string
}.

(** [config.js] *)
Record Config : Type := mkConfig {
  monitoringInterval : string;
  requestTimeout : Z;
  retryAttempts : Z;
  retryDelay : Z;
  webhookUrl : string;
  serverUrls : list string;
  successStatusCodes : list Z;
  enableVerboseLogging : bool;
  sendRecoveryNotifications : bool
}.

(** [parseInt(process.env.X) || d]: [NaN] ([None]) and [0] are falsy. *)
Definition parsedOr (parsed : option Z) (d : Z) : Z :=
  match parsed with
  | Some n => if n =? 0 then d else n
  | None => d
  end.

Definition defaultServerUrls : list string :=
  ["https://httpbin.org/status/200";
   "https://jsonplaceholder.typicode.com/posts/1";
   "https://api.github.com"].

Definition defaultSuccessStatusCodes : list Z :=
  [200; 201; 202; 204; 301; 302; 304].

(** The settings as [config.js] builds them from the environment; the
    arguments are the environment variables after [parseInt], [split]
    and the comparisons with ['true'] and ['false']. *)
Definition loadConfig (interval : option string)
    (timeout attempts delay : option Z) (webhook : string)
    (urls : option (list string)) (codes : option (list Z))
    (verboseIsTrue recoveryIsFalse : bool) : Config :=
  {| monitoringInterval := default "* * * * *" interval;
     requestTimeout := parsedOr timeout 10000;
     retryAttempts := parsedOr attempts 3;
     retryDelay := parsedOr delay 1000;
     webhookUrl := webhook;
     serverUrls := default defaultServerUrls urls;
     successStatusCodes := default defaultSuccessStatusCodes codes;
     enableVerboseLogging := verboseIsTrue;
     sendRecoveryNotifications := negb recoveryIsFalse |}.

(** [Array.prototype.includes] on the list of status codes.  An entry
    that [parseInt] turned into [NaN] equals no status code and is left
    out of the list. *)
Definition includes (codes : list Z) (code : Z) : bool :=
  existsb (Z.eqb code) codes.

(** A thrown [Error]; only its [message] is ever read. *)
Record JsError : Type := mkError { message : string }.

(** The value [makeHttpRequest] resolves to. *)
Record Response : Type := mkResponse {
  status : Z;
  resp_responseTime : Z
}.

(** The body of a webhook message: the fields interpolated into the text
    by [sendDownAlert] and [sendRecoveryAlert]. *)
Inductive Message : Type :=
  | DownAlert (server : string) (err : string) (failures : Z)
      (checkedAt : option Z)
  | RecoveryNotification (server : string) (code : option Z)
      (latency : option Z) (recoveredAt : option Z).

(** The two values of [messageType]. *)
Inductive MessageType : Type := DownAlertType | RecoveryType.

(** One constructor per [console.log] / [console.error] of the methods
    embedded below. *)
Inductive LogLine : Type :=
  | LogStarting (timestamp : Z)
  | LogCompleted (upCount downCount : Z)
  | LogVerboseOk (url : string) (code latency : Z)
  | LogCheckError (url : string) (msg : string)
  | LogDownDetected (url : string)
  | LogRecovered (url : string)
  | LogWebhookSent (ty : MessageType)
  | LogWebhookHttp (ty : MessageType) (code : Z)
  | LogWebhookError (ty : MessageType) (msg : string)
  | LogValidationFailed
  | LogValidationError (msg : string)
  | LogBotStarting
  | LogMonitoring (servers : Z)
  | LogInterval (expression : string)
  | LogWebhookUrl (masked : string)
  | LogBotStarted
  | LogStartFailed (msg : string).

(** Everything a run does that can be observed from outside.
    [CronStart] is [this.cronJob.start()]: from then on the callback of
    the cron job runs at every match of the expression. *)
Inductive Event : Type :=
  | HttpGet (url : string) (attempt : Z)
  | Slept (ms : Z)
  | HttpPost (url : string) (msg : Message)
  | Console (line : LogLine)
  | CronStart (expression : string).

Record World : Type := mkWorld {
  now : Z;
  serverStatus : gmap string StatusRecord;
  output : list Event
}.

(** ** The environment *)

(** What one [axios.get] does: the server answers with some status code
    (any code: [validateStatus] accepts all), or the call fails before an
    answer arrives; either takes [took] milliseconds. *)
Inductive Attempt : Type :=
  | Responded (code : Z) (took : Z)
  | TransportError (msg : string) (took : Z).

Definition took (a : Attempt) : Z :=
  match a with Responded _ t => t | TransportError _ t => t end.

(** What one [axios.post] does: the promise resolves with a status code
    or rejects. *)
Inductive PostOutcome : Type :=
  | PostResolved (code : Z)
  | PostRejected (msg : string).

(** The environment of one check of one target: the outcome of the n-th
    [axios.get] of the probe, and of the webhook call if there is one. *)
Record CheckEnv : Type := mkEnv {
  net : Z -> Attempt;
  hook : PostOutcome
}.

(** ** Computations *)

Inductive Completion (A : Type) : Type :=
  | Normal (a : A)
  | Thrown (e : JsError).
Arguments Normal {A} a.
Arguments Thrown {A} e.

Definition M (A : Type) : Type := World -> Completion A * World.

Definition ret {A} (a : A) : M A := fun w => (Normal a, w).

Definition throw {A} (e : JsError) : M A := fun w => (Thrown e, w).

Definition bind {A B} (m : M A) (k : A -> M B) : M B := fun w =>
  match m w with
  | (Normal a, w') => k a w'
  | (Thrown e, w') => (Thrown e, w')
  end.

(** [try { m } catch (error) { handler error }] where [m] ends the
    enclosing function when it completes normally. *)
Definition tryCatch {A} (m : M A) (handler : JsError -> M A) : M A := fun w =>
  match m w with
  | (Normal a, w') => (Normal a, w')
  | (Thrown e, w') => handler e w'
  end.

#[global] Instance M_ret : MRet M := @ret.
#[global] Instance M_bind : MBind M := fun A B k m => bind m k.

Definition when (b : bool) (m : M unit) : M unit :=
  if b then m else ret tt.

Definition emit (e : Event) : M unit := fun w =>
  (Normal tt, mkWorld (now w) (serverStatus w) (output w ++ [e])).

Definition elapse (ms : Z) : M unit := fun w =>
  (Normal tt, mkWorld (now w + ms) (serverStatus w) (output w)).

Definition setClock (t : Z) (w : World) : World :=
  mkWorld t (serverStatus w) (output w).

(** [Date.now()] and [new Date()] *)
Definition dateNow : M Z := fun w => (Normal (now w), w).

Definition console (line : LogLine) : M unit := emit (Console line).

(** [this.serverStatus.get(url)]; [None] is [undefined]. *)
Definition statusGet (url : string) : M (option StatusRecord) := fun w =>
  (Normal (serverStatus w !! url), w).

(** [this.serverStatus.set(url, st)] *)
Definition statusSet (url : string) (st : StatusRecord) : M unit := fun w =>
  (Normal tt, mkWorld (now w) (<[url := st]> (serverStatus w)) (output w)).

(** Reading a property of a value that may be [undefined] throws a
    [TypeError]. *)
Definition prop {A B} (x : option A) (f : A -> B) (name : string) : M B :=
  match x with
  | Some a => ret (f a)
  | None =>
      throw (mkError ("Cannot read properties of undefined (reading '"
                      +:+ name +:+ "')"))
  end.

(** [axios.get(url, {timeout, validateStatus: () => true})] *)
Definition axiosGet (reply : Attempt) (url : string) (attempt : Z) : M Z :=
  emit (HttpGet url attempt);;
  elapse (took reply);;
  match reply with
  | Responded code _ => ret code
  | TransportError msg _ => throw (mkError msg)
  end.

(** [axios.post(config.webhookUrl, message, {timeout: 5000})] *)
Definition axiosPost (reply : PostOutcome) (url : string) (msg : Message)
    : M Z :=
  emit (HttpPost url msg);;
  match reply with
  | PostResolved code => ret code
  | PostRejected m => throw (mkError m)
  end.

(** [sleep(ms)]: [setTimeout] treats a negative delay as none. *)
Definition sleep (ms : Z) : M unit :=
  emit (Slept ms);; elapse (Z.max 0 ms).

Definition exec {A} (m : M A) (w : World) : World := snd (m w).
Definition eval {A} (m : M A) (w : World) : Completion A := fst (m w).

(** ** [makeHttpRequest] *)

Section Bot.

Variable config : Config.

(** The iterations of [for (attempt = ...; attempt <= retryAttempts;
    attempt++)] that are still to run.  An iteration ends the function
    when the request is answered or when the last attempt fails; when no
    iteration is left the function falls off its end and resolves to
    [undefined]. *)
Fixpoint attemptLoop (net : Z -> Attempt) (url : string) (startTime : Z)
    (attempts : list Z) : M (option Response) :=
  match attempts with
  | [] => ret None
  | attempt :: rest =>
      tryCatch
        (code ← axiosGet (net attempt) url attempt;
         t ← dateNow;
         ret (Some (mkResponse code (t - startTime))))
        (fun error =>
           if attempt =? retryAttempts config then
             throw (mkError ("Request failed after "
                             +:+ pretty (retryAttempts config)
                             +:+ " attempts: " +:+ message error))
           else
             sleep (retryDelay config * attempt);;
             attemptLoop net url startTime rest)
  end.

Definition makeHttpRequest (net : Z -> Attempt) (url : string)
    : M (option Response) :=
  startTime ← dateNow;
  attemptLoop net url startTime (seqZ 1 (retryAttempts config)).

(** ** Notifications *)

(** [sendWebhookMessage]: one [axios.post]; whatever it does ends in a
    line on the console. *)
Definition sendWebhookMessage (reply : PostOutcome) (msg : Message)
    (messageType : MessageType) : M unit :=
  tryCatch
    (code ← axiosPost reply (webhookUrl config) msg;
     if code =? 200 then console (LogWebhookSent messageType)
     else console (LogWebhookHttp messageType code))
    (fun error => console (LogWebhookError messageType (message error))).

Definition sendDownAlert (reply : PostOutcome) (url : string)
    (st : StatusRecord) : M unit :=
  sendWebhookMessage reply
    (DownAlert url (orElse (error st) "No response")
       (consecutiveFailures st) (lastCheck st))
    DownAlertType.

Definition sendRecoveryAlert (reply : PostOutcome) (url : string)
    (st : StatusRecord) : M unit :=
  sendWebhookMessage reply
    (RecoveryNotification url (statusCode st) (responseTime st)
       (lastCheck st))
    RecoveryType.

(** [handleStatusChange] *)
Definition handleStatusChange (reply : PostOutcome) (url : string)
    (previousStatus : option StatusRecord) (currentStatus : StatusRecord)
    : M unit :=
  wasUp ← prop previousStatus isUp "isUp";
  when (wasUp && negb (isUp currentStatus))
    (console (LogDownDetected url);;
     sendDownAlert reply url currentStatus);;
  when (negb wasUp && isUp currentStatus
        && sendRecoveryNotifications config)
    (console (LogRecovered url);;
     sendRecoveryAlert reply url currentStatus).

(** ** [checkServerHealth] *)

(** The method after its first statement, [previousStatus =
    this.serverStatus.get(url)].  (The object first assigned to
    [currentStatus] is overwritten on both paths and is left out.) *)
Definition checkAgainst (env : CheckEnv) (url : string)
    (previousStatus : option StatusRecord) : M StatusRecord :=
  currentStatus ←
    tryCatch
      (response ← makeHttpRequest (net env) url;
       code ← prop response status "status";
       let up := includes (successStatusCodes config) code in
       checked ← dateNow;
       failures ←
         (if up then ret 0
          else n ← prop previousStatus consecutiveFailures
                     "consecutiveFailures";
               ret (n + 1));
       latency ← prop response resp_responseTime "responseTime";
       when (enableVerboseLogging config)
         (console (LogVerboseOk url code latency));;
       ret (mkStatus up (Some checked) failures (Some code) (Some latency)
              Null))
      (fun error =>
         checked ← dateNow;
         n ← prop previousStatus consecutiveFailures "consecutiveFailures";
         console (LogCheckError url (message error));;
         ret (mkStatus false (Some checked) (n + 1) None None
                (Val (message error))));
  statusSet url currentStatus;;
  handleStatusChange (hook env) url previousStatus currentStatus;;
  ret currentStatus.

Definition checkServerHealth (env : CheckEnv) (url : string)
    : M StatusRecord :=
  previousStatus ← statusGet url;
  checkAgainst env url previousStatus.

(** ** [performHealthCheck] *)

(** One promise of [Promise.allSettled]: the check was started at
    [start]; it runs on its own clock, and the cycle goes on once the
    slowest has settled.  A rejection becomes a value. *)
Definition settle {A} (start : Z) (m : M A) : M (Completion A) := fun w =>
  let (r, w') := m (setClock start w) in
  (Normal r, setClock (Z.max (now w) (now w')) w').

Fixpoint allSettled {A} (start : Z) (promises : list (M A))
    : M (list (Completion A)) :=
  match promises with
  | [] => ret []
  | p :: rest =>
      r ← settle start p;
      rs ← allSettled start rest;
      ret (r :: rs)
  end.

(** The [forEach] over the settled results: [(upCount, downCount)]. *)
Definition tally (counts : Z * Z) (result : Completion StatusRecord)
    : Z * Z :=
  match result with
  | Normal value =>
      if isUp value then (fst counts + 1, snd counts)
      else (fst counts, snd counts + 1)
  | Thrown _ => (fst counts, snd counts + 1)
  end.

(** The checks of one cycle.  [config.serverUrls.map] calls
    [checkServerHealth] for every URL before any of the checks resumes
    after its first [await], so every check reads its [previousStatus]
    from the map as it is when the cycle starts.  [envs i] is the
    environment of the check of the i-th URL. *)
Definition checkPromises (envs : nat -> CheckEnv)
    (atStart : gmap string StatusRecord) : list (M StatusRecord) :=
  imap (fun i url => checkAgainst (envs i) url (atStart !! url))
    (serverUrls config).

(** The source logs the two counters; they are also returned here, so
    that statements can name them. *)
Definition performHealthCheck (envs : nat -> CheckEnv) : M (Z * Z) :=
  timestamp ← dateNow;
  console (LogStarting timestamp);;
  results ← (fun w =>
               allSettled timestamp (checkPromises envs (serverStatus w)) w);
  let counts := fold_left tally results (0, 0) in
  console (LogCompleted (fst counts) (snd counts));;
  ret counts.

(** ** [validateConfig] and [start] *)

(** [new URL(url)] succeeds. *)
Variable parsesAsUrl : string -> bool.

(** The [errors] of [validateConfig]; [isValid] is [errors.length === 0].
    An unset webhook URL is the empty string. *)
Definition validateConfig : list string :=
  (if decide (webhookUrl config = "")
   then ["LARK_WEBHOOK_URL environment variable is required"] else [])
  ++ (if decide (serverUrls config = [])
      then ["At least one server URL must be configured"] else [])
  ++ omap id
       (imap (fun index url =>
                if parsesAsUrl url then None
                else Some ("Invalid URL at index " +:+ pretty index
                           +:+ ": " +:+ url))
          (serverUrls config)).

Definition initialStatus : StatusRecord :=
  mkStatus true None 0 None None Undefined.

(** [config.serverUrls.forEach(url => this.serverStatus.set(url, ...))] *)
Fixpoint initializeStatus (urls : list string) : M unit :=
  match urls with
  | [] => ret tt
  | url :: rest => statusSet url initialStatus;; initializeStatus rest
  end.

(** What [new URL(url)] gives, for a URL that parses, as
    [`${urlObj.protocol}//${urlObj.hostname}`]. *)
Variable originOf : string -> string.

(** [maskWebhookUrl]: [new URL] throws a [TypeError] on a string that
    does not parse. *)
Definition maskWebhookUrl (url : string) : M string :=
  if decide (url = "") then ret "Not configured"
  else if parsesAsUrl url then ret (originOf url +:+ "/*****")
  else throw (mkError "Invalid URL").

(** [cron.schedule] checks the expression and throws on one it does not
    accept: [Some msg] is the message of that error. *)
Variable cronRejects : string -> option string.

(** [scheduleMonitoring]: the job is created stopped and started at
    once; its callback calls [performHealthCheck], whether or not an
    earlier call has returned. *)
Definition scheduleMonitoring : M unit :=
  match cronRejects (monitoringInterval config) with
  | Some msg => throw (mkError msg)
  | None => emit (CronStart (monitoringInterval config))
  end.

(** [errors.forEach(error => console.error(...))] *)
Fixpoint logEach (lines : list LogLine) : M unit :=
  match lines with
  | [] => ret tt
  | line :: rest => console line;; logEach rest
  end.

(** [start]: [Some code] is [process.exit(code)]; [None] is the method
    returning with [isRunning] set.  Everything after the validation can
    throw into the [catch], which exits: [maskWebhookUrl] before any
    record exists, [scheduleMonitoring] once the records exist.  The
    cron job is started before the first cycle is awaited. *)
Definition start (envs : nat -> CheckEnv) : M (option Z) :=
  tryCatch
    (if decide (validateConfig = []) then
       console LogBotStarting;;
       console (LogMonitoring (Z.of_nat (length (serverUrls config))));;
       console (LogInterval (monitoringInterval config));;
       masked ← maskWebhookUrl (webhookUrl config);
       console (LogWebhookUrl masked);;
       initializeStatus (serverUrls config);;
       scheduleMonitoring;;
       performHealthCheck envs;;
       console LogBotStarted;;
       ret None
     else
       console LogValidationFailed;;
       logEach (LogValidationError <$> validateConfig);;
       ret (Some 1))
    (fun error =>
       console (LogStartFailed (message error));;
       ret (Some 1)).

End Bot.

(** ** Runs *)

(** The world before [start]: an empty status map. *)
Definition boot (t : Z) : World := mkWorld t ∅ [].

(** The environment of one cycle: the time at which it starts and the
    environments of its checks. *)
Record CycleEnv : Type := mkCycle {
  startsAt : Z;
  checks : nat -> CheckEnv
}.

(** A cycle that runs alone: from the call of [performHealthCheck] to
    its last line, nothing else touches the world. *)
Definition cycle (config : Config) (c : CycleEnv) (w : World) : World :=
  exec (performHealthCheck config (checks c)) (setClock (startsAt c) w).

(** The world once every URL has its initial record. *)
Definition initialized (config : Config) (t : Z) : World :=
  exec (initializeStatus (serverUrls config)) (boot t).

(** Cycles that run one after the other: each is called when the one
    before it has returned. *)
Definition runCycles (config : Config) (cs : list CycleEnv) (w : World)
    : World :=
  fold_left (fun w c => cycle config c w) cs w.

(** *** Cycles that overlap

    [start] starts the cron job before it awaits the first cycle, and
    the callback of the cron job does not look whether an earlier cycle
    is still under way.  So the checks of several cycles can be pending
    at the same time.  A check reads its [previousStatus] when its cycle
    is called; what it does to the map and the webhook after that (the
    record it writes, the post) it does once its probe is over.  In
    between the check is in flight: [flightPrevious] is what it read,
    [flightStart] the time at which it started.  The requests of its
    probe are written to the output when the check ends, as in
    [allSettled]: the output keeps the order of the writes and of the
    posts, not that of the requests of different checks. *)
Record Flight : Type := mkFlight {
  flightEnv : CheckEnv;
  flightUrl : string;
  flightPrevious : option StatusRecord;
  flightStart : Z
}.

(** [performHealthCheck] is called: its first line, ... *)
Definition tick (c : CycleEnv) (w : World) : World :=
  exec (console (LogStarting (startsAt c))) (setClock (startsAt c) w).

(** ... and [config.serverUrls.map(url => this.checkServerHealth(url))]
    starts the check of every URL. *)
Definition takeOff (config : Config) (c : CycleEnv) (w : World)
    : list Flight :=
  imap (fun i url =>
          mkFlight (checks c i) url (serverStatus w !! url) (startsAt c))
    (serverUrls config).

(** The probe of a check in flight is over, and the check runs to its
    end. *)
Definition land (config : Config) (f : Flight) (w : World) : World :=
  exec (settle (flightStart f)
          (checkAgainst config (flightEnv f) (flightUrl f)
             (flightPrevious f)))
    w.

(** What is written without a request: the lines on the console (among
    them the summary of a cycle whose checks are all over) and the start
    of the cron job. *)
Definition isNotice (e : Event) : bool :=
  match e with
  | Console _ => true
  | CronStart _ => true
  | _ => false
  end.

(** The worlds a started bot can be in, with the checks in flight:
    cycles are called at any time, and the checks in flight end in any
    order. *)
Inductive running (config : Config) : World -> list Flight -> Prop :=
  | run_init t : running config (initialized config t) []
  | run_notice w flights e :
      running config w flights -> isNotice e = true ->
      running config (exec (emit e) w) flights
  | run_tick w flights c :
      running config w flights ->
      running config (tick c w) (flights ++ takeOff config c w)
  | run_land w flights k f :
      running config w flights -> flights !! k = Some f ->
      running config (land config f w) (delete k flights).

Definition reachable (config : Config) (w : World) : Prop :=
  exists flights, running config w flights.

(** Two cycles of which the second is called while the checks of the
    first are in flight; then the checks of the first end, then those of
    the second.  (The two summary lines are left out.) *)
Definition overlap (config : Config) (c1 c2 : CycleEnv) (w : World)
    : World :=
  fold_left (fun w f => land config f w)
    (takeOff config c1 w ++ takeOff config c2 (tick c1 w))
    (tick c2 (tick c1 w)).

(** * Vocabulary of the statements

    First the summaries: pure functions that say what a probe, a check
    and a cycle do to the world.  The lemmas of the last part show that
    the methods above do exactly that; the claims are stated on the
    methods.  Then what the statements count and compare. *)

Record ProbeRun : Type := mkRun {
  outcome : Completion (option Z);
  elapsed : Z;
  requests : list Event
}.

(** ** The probe

    [attemptRun] follows [attemptLoop] and keeps what the loop does to
    the world: how it ends, how long it takes, and what it requests. *)

Section ProbeSummary.

Variable config : Config.

Fixpoint attemptRun (net : Z -> Attempt) (url : string) (attempts : list Z)
    : ProbeRun :=
  match attempts with
  | [] => mkRun (Normal None) 0 []
  | attempt :: rest =>
      match net attempt with
      | Responded code t => mkRun (Normal (Some code)) t [HttpGet url attempt]
      | TransportError msg t =>
          if attempt =? retryAttempts config then
            mkRun (Thrown (mkError ("Request failed after "
                                    +:+ pretty (retryAttempts config)
                                    +:+ " attempts: " +:+ msg)))
              t [HttpGet url attempt]
          else
            let r := attemptRun net url rest in
            mkRun (outcome r)
              (t + Z.max 0 (retryDelay config * attempt) + elapsed r)
              (HttpGet url attempt :: Slept (retryDelay config * attempt)
               :: requests r)
      end
  end.

Definition probeRun (net : Z -> Attempt) (url : string) : ProbeRun :=
  attemptRun net url (seqZ 1 (retryAttempts config)).

Definition respond (latency : Z) (o : Completion (option Z))
    : Completion (option Response) :=
  match o with
  | Normal (Some code) => Normal (Some (mkResponse code latency))
  | Normal None => Normal None
  | Thrown e => Thrown e
  end.

End ProbeSummary.

(** ** One check *)

Section CheckSummary.

Variable config : Config.

Definition undefinedStatus : string :=
  "Cannot read properties of undefined (reading 'status')".

(** The record a check builds from the previous record [p], the time
    [t0] at which it started and the run of its probe. *)
Definition classified (p : StatusRecord) (t0 : Z) (r : ProbeRun)
    : StatusRecord :=
  let failed msg :=
    mkStatus false (Some (t0 + elapsed r)) (consecutiveFailures p + 1)
      None None (Val msg) in
  match outcome r with
  | Normal (Some code) =>
      let up := includes (successStatusCodes config) code in
      mkStatus up (Some (t0 + elapsed r))
        (if up then 0 else consecutiveFailures p + 1)
        (Some code) (Some (elapsed r)) Null
  | Normal None => failed undefinedStatus
  | Thrown e => failed (message e)
  end.

Definition checkLog (url : string) (r : ProbeRun) : list Event :=
  match outcome r with
  | Normal (Some code) =>
      if enableVerboseLogging config
      then [Console (LogVerboseOk url code (elapsed r))] else []
  | Normal None => [Console (LogCheckError url undefinedStatus)]
  | Thrown e => [Console (LogCheckError url (message e))]
  end.

Definition deliveryLog (reply : PostOutcome) (ty : MessageType) : LogLine :=
  match reply with
  | PostResolved code =>
      if code =? 200 then LogWebhookSent ty else LogWebhookHttp ty code
  | PostRejected m => LogWebhookError ty m
  end.

Definition delivery (reply : PostOutcome) (msg : Message)
    (ty : MessageType) : list Event :=
  [HttpPost (webhookUrl config) msg; Console (deliveryLog reply ty)].

Definition downMessage (url : string) (st : StatusRecord) : Message :=
  DownAlert url (orElse (error st) "No response") (consecutiveFailures st)
    (lastCheck st).

Definition recoveryMessage (url : string) (st : StatusRecord) : Message :=
  RecoveryNotification url (statusCode st) (responseTime st) (lastCheck st).

Definition notifications (reply : PostOutcome) (url : string)
    (p cur : StatusRecord) : list Event :=
  (if isUp p && negb (isUp cur)
   then Console (LogDownDetected url)
        :: delivery reply (downMessage url cur) DownAlertType
   else [])
  ++ (if negb (isUp p) && isUp cur && sendRecoveryNotifications config
      then Console (LogRecovered url)
           :: delivery reply (recoveryMessage url cur) RecoveryType
      else []).

Definition checkResult (env : CheckEnv) (url : string) (p : StatusRecord)
    (t0 : Z) : StatusRecord :=
  classified p t0 (probeRun config (net env) url).

Definition checkOutput (env : CheckEnv) (url : string) (p : StatusRecord)
    (t0 : Z) : list Event :=
  let r := probeRun config (net env) url in
  requests r ++ checkLog url r
  ++ notifications (hook env) url p (classified p t0 r).

End CheckSummary.

#[global] Instance StatusRecord_inhabited : Inhabited StatusRecord :=
  populate initialStatus.

(** ** One cycle *)

Section CycleSummary.

Variable config : Config.

(** The record the check of the i-th URL builds, given the map [s] at
    the start of the cycle and the time [t0] of that start. *)
Definition recordOf (envs : nat -> CheckEnv) (s : gmap string StatusRecord)
    (t0 : Z) (i : nat) (url : string) : StatusRecord :=
  checkResult config (envs i) url (s !!! url) t0.

Definition outputOf (envs : nat -> CheckEnv) (s : gmap string StatusRecord)
    (t0 : Z) (i : nat) (url : string) : list Event :=
  checkOutput config (envs i) url (s !!! url) t0.

Definition write (m : gmap string StatusRecord) (kv : string * StatusRecord)
    : gmap string StatusRecord :=
  <[kv.1 := kv.2]> m.

(** What [tally] counts. *)
Definition fulfilledUp (result : Completion StatusRecord) : bool :=
  match result with
  | Normal value => isUp value
  | Thrown _ => false
  end.

Definition cycleResults (envs : nat -> CheckEnv) (w : World)
    : list (Completion StatusRecord) :=
  imap (fun i url => Normal (recordOf envs (serverStatus w) (now w) i url))
    (serverUrls config).

Definition cycleWrites (envs : nat -> CheckEnv) (w : World)
    : gmap string StatusRecord :=
  fold_left write
    (imap (fun i url => (url, recordOf envs (serverStatus w) (now w) i url))
       (serverUrls config))
    (serverStatus w).

Definition cycleEvents (envs : nat -> CheckEnv) (w : World) : list Event :=
  Console (LogStarting (now w))
  :: concat (imap (outputOf envs (serverStatus w) (now w))
               (serverUrls config))
  ++ [Console (LogCompleted
                 (fold_left tally (cycleResults envs w) (0, 0)).1
                 (fold_left tally (cycleResults envs w) (0, 0)).2)].

(** Every configured URL has a record. *)
Definition covered (w : World) : Prop :=
  forall u, u ∈ serverUrls config -> is_Some (serverStatus w !! u).

End CycleSummary.

(** ** Events and counters *)

Definition countOf (f : Event -> bool) (evs : list Event) : nat :=
  length (List.filter f evs).

(** The posts a run makes about one target. *)
Definition isDownAlertFor (u : string) (e : Event) : bool :=
  match e with
  | HttpPost _ (DownAlert server _ _ _) => bool_decide (server = u)
  | _ => false
  end.

Definition isRecoveryFor (u : string) (e : Event) : bool :=
  match e with
  | HttpPost _ (RecoveryNotification server _ _ _) => bool_decide (server = u)
  | _ => false
  end.

Definition isPost (e : Event) : bool :=
  match e with HttpPost _ _ => true | _ => false end.

Definition isRequest (e : Event) : bool :=
  match e with HttpGet _ _ => true | _ => false end.

Definition isSleep (e : Event) : bool :=
  match e with Slept _ => true | _ => false end.

(** What a cycle adds to the output. *)
Definition cycleOutput (config : Config) (c : CycleEnv) (w : World)
    : list Event :=
  drop (length (output w)) (output (cycle config c w)).

(** ** Retries *)

Definition sumZ (f : Z -> Z) (ks : list Z) : Z :=
  foldr (fun k acc => f k + acc) 0 ks.

(** The requests of a probe that makes [n] attempts, in the order in
    which they happen: no delay before the first attempt, and a delay of
    [baseDelay * (k - 1)] before attempt [k] for every later one. *)
Definition expectedRequests (url : string) (baseDelay : Z) (first n : Z)
    : list Event :=
  HttpGet url first
  :: flat_map (fun k => [Slept (baseDelay * (k - 1)); HttpGet url k])
       (seqZ (first + 1) (n - first)).

Definition fails (net : Z -> Attempt) (k : Z) : Prop :=
  exists msg t, net k = TransportError msg t.

(** ** What the target answers *)

(** The status code of the first answer among the attempts of a probe,
    as the environment gives them. *)
Fixpoint firstAnswer (net : Z -> Attempt) (attempts : list Z) : option Z :=
  match attempts with
  | [] => None
  | attempt :: rest =>
      match net attempt with
      | Responded code _ => Some code
      | TransportError _ _ => firstAnswer net rest
      end
  end.

(** The target is healthy for a check: one of the attempts
    [1 .. retryAttempts] is answered, and the first answer has a success
    status code. *)
Definition healthy (config : Config) (env : CheckEnv) : bool :=
  match firstAnswer (net env) (seqZ 1 (retryAttempts config)) with
  | Some code => includes (successStatusCodes config) code
  | None => false
  end.

(** What a check adds to the output. *)
Definition checkOutputOf (config : Config) (env : CheckEnv) (url : string)
    (w : World) : list Event :=
  drop (length (output w))
    (output (exec (checkServerHealth config env url) w)).

(** ** One target across cycles *)

Definition upAt (u : string) (w : World) : bool :=
  isUp (serverStatus w !!! u).




Definition isRecovery (e : Event) : bool :=
  match e with
  | HttpPost _ (RecoveryNotification _ _ _ _) => true
  | _ => false
  end.

(** What the cycles [cs] add to the output. *)
Definition runOutput (config : Config) (cs : list CycleEnv) (w : World)
    : list Event :=
  drop (length (output w)) (output (runCycles config cs w)).

(** A target that is down has been the subject of a down alert. *)
Definition alerted (w : World) : Prop :=
  forall u, upAt u w = false ->
    exists j d, output w !! j = Some d /\ isDownAlertFor u d = true.

(** Every recovery notification comes after a down alert for the same
    target. *)
Definition ordered (w : World) : Prop :=
  forall k h u code latency checkedAt,
    output w !! k
    = Some (HttpPost h (RecoveryNotification u code latency checkedAt)) ->
    exists j d,
      (j < k)%nat /\ output w !! j = Some d /\ isDownAlertFor u d = true.

(** The console lines that report how a delivery went. *)
Definition isDeliveryLog (e : Event) : bool :=
  match e with
  | Console (LogWebhookSent _) => true
  | Console (LogWebhookHttp _ _) => true
  | Console (LogWebhookError _ _) => true
  | _ => false
  end.

Definition exceptDeliveryLog (evs : list Event) : list Event :=
  List.filter (fun e => negb (isDeliveryLog e)) evs.

(** ** The fields of a record *)

(** The probe was answered: the record has the status code and the
    response time, and [error] is [null]. *)
Definition answeredShape (r : StatusRecord) : Prop :=
  is_Some (statusCode r) /\ is_Some (responseTime r) /\ error r = Null.

(** The probe was not answered: the record is down, has an error, and
    has neither status code nor response time. *)
Definition failedShape (r : StatusRecord) : Prop :=
  isUp r = false /\ isPresent (error r) = true
  /\ statusCode r = None /\ responseTime r = None.

(** ** Examples used to instantiate the statements *)

Definition exampleConfig : Config :=
  loadConfig None None None None "https://open.larksuite.com/hook"
    (Some ["https://good.example"; "https://bad.example"]) None false false.

Definition quietConfig : Config :=
  loadConfig None None None None "https://open.larksuite.com/hook"
    (Some ["https://good.example"; "https://bad.example"]) None false true.

Definition answers (code ms : Z) : CheckEnv :=
  mkEnv (fun _ => Responded code ms) (PostResolved 200).

Definition timesOut : CheckEnv :=
  mkEnv (fun _ => TransportError "timeout of 10000ms exceeded" 10000)
    (PostResolved 200).

Definition flaky : CheckEnv :=
  mkEnv (fun k => if k <? 3
                  then TransportError "timeout of 10000ms exceeded" 10000
                  else Responded 200 120)
    (PostRejected "connect ECONNREFUSED").

Definition downThenUp : list CycleEnv :=
  [mkCycle 0 (fun _ => answers 200 40);
   mkCycle 60000 (fun _ => timesOut);
   mkCycle 120000 (fun _ => answers 503 15)].

Definition staysDownAfter : World :=
  cycle quietConfig (mkCycle 0 (fun _ => timesOut)) (initialized quietConfig 0).

Definition answersAgain : CycleEnv := mkCycle 60000 (fun _ => answers 200 40).

Definition downTwice : list CycleEnv :=
  [mkCycle 60000 (fun _ => timesOut); mkCycle 120000 (fun _ => timesOut)].

Definition recovers : list CycleEnv :=
  [mkCycle 0 (fun _ => timesOut); mkCycle 60000 (fun _ => answers 200 40);
   mkCycle 120000 (fun _ => timesOut);
   mkCycle 180000 (fun _ => answers 200 40)].

(** The first cycle, called by [start], and the first call by the cron
    job 15 seconds later; the target does not answer, and a probe of
    three attempts that time out takes 33 seconds. *)
Definition firstCheck : CycleEnv := mkCycle 0 (fun _ => timesOut).

Definition firstTick : CycleEnv := mkCycle 15000 (fun _ => timesOut).

(** The same URL configured twice. *)
Definition twiceConfig : Config :=
  loadConfig None None None None "https://open.larksuite.com/hook"
    (Some ["https://bad.example"; "https://bad.example"]) None false false.

(** A timeout of 30 seconds: a probe can outlast the minute between two
    calls by the cron job. *)
Definition slowConfig : Config :=
  loadConfig None (Some 30000) None None "https://open.larksuite.com/hook"
    (Some ["https://good.example"; "https://bad.example"]) None false false.

Definition slowToAnswer : CheckEnv :=
  mkEnv (fun k => if k <? 3
                  then TransportError "timeout of 30000ms exceeded" 30000
                  else Responded 200 120)
    (PostResolved 200).

Definition neverAnswers : CheckEnv :=
  mkEnv (fun _ => TransportError "timeout of 30000ms exceeded" 30000)
    (PostResolved 200).

(** The target is down after the first cycle.  The cycle called at
    minute 2 is answered after 63 seconds; the cycle called at minute 3
    is answered after 5 seconds, when the checks of the one before are
    still in flight. *)
Definition wentDown : World :=
  cycle slowConfig (mkCycle 0 (fun _ => neverAnswers))
    (initialized slowConfig 0).

Definition minuteTwo : CycleEnv := mkCycle 120000 (fun _ => slowToAnswer).

Definition minuteThree : CycleEnv := mkCycle 180000 (fun _ => answers 200 5000).

(** A negative [RETRY_ATTEMPTS]: the loop of the probe never runs. *)
Definition noAttempts : Config :=
  loadConfig None None (Some (-1)) None "https://open.larksuite.com/hook"
    (Some ["https://good.example"]) None false false.

(** End to end: two targets, the second never answers, two attempts. *)
Definition twoAttempts : Config :=
  loadConfig None None (Some 2) None "https://open.larksuite.com/hook"
    (Some ["https://good.example"; "https://bad.example"]) None false false.

Definition goodAndBad (i : nat) : CheckEnv :=
  match i with
  | O => answers 200 40
  | _ => timesOut
  end.

Definition hookDown (envs : nat -> CheckEnv) (i : nat) : CheckEnv :=
  mkEnv (net (envs i)) (PostRejected "timeout of 5000ms exceeded").

(** * The rest of the bot *)

(** ** [getStatusSummary] *)

(** One element of [summary.servers]. *)
Record ServerEntry : Type := mkEntry {
  entry_url : string;
  entry_isUp : bool;
  entry_lastCheck : option Z;
  entry_consecutiveFailures : Z;
  entry_error : Nullable string
}.

Record StatusSummary : Type := mkSummary {
  totalServers : Z;
  upServers : Z;
  downServers : Z;
  servers : list ServerEntry
}.

(** The body of [for (const [url, status] of this.serverStatus)]. *)
Definition summarize (summary : StatusSummary) (kv : string * StatusRecord)
    : StatusSummary :=
  mkSummary (totalServers summary)
    (if isUp kv.2 then upServers summary + 1 else upServers summary)
    (if isUp kv.2 then downServers summary else downServers summary + 1)
    (servers summary
     ++ [mkEntry kv.1 (isUp kv.2) (lastCheck kv.2) (consecutiveFailures kv.2)
           (error kv.2)]).

(** [getStatusSummary].  A [Map] is iterated in the order in which its
    keys were first set; the finite map of the model has an order of its
    own, so the order of [servers] is not the source's, and no statement
    below depends on it. *)
Definition getStatusSummary (config : Config) (w : World) : StatusSummary :=
  fold_left summarize (map_to_list (serverStatus w))
    (mkSummary (Z.of_nat (length (serverUrls config))) 0 0 []).

(** ** The webhook URL in the log of the container *)

(** [docker-entrypoint.sh] prints the webhook URL through
    [sed 's/\(.*\)\/\([^/]*\)$/\1\/***masked***/'].  [splitLast line] is
    the match of the pattern: the text before the last [/] of the line
    and the text after it; there is none when the line has no [/]. *)
Definition slash : Ascii.ascii := Ascii.ascii_of_nat 47.

Fixpoint splitLast (line : string) : option (string * string) :=
  match line with
  | EmptyString => None
  | String c rest =>
      match splitLast rest with
      | Some (before, after) => Some (String c before, after)
      | None =>
          if Ascii.eqb c slash then Some (EmptyString, rest) else None
      end
  end.

(** The line [sed] prints: a line that does not match is printed as it
    is. *)
Definition maskLine (line : string) : string :=
  match splitLast line with
  | Some (before, _) => before +:+ "/***masked***"
  | None => line
  end.

Fixpoint hasSlash (s : string) : bool :=
  match s with
  | EmptyString => false
  | String c rest => Ascii.eqb c slash || hasSlash rest
  end.

(** ** Settings that differ in the two switches only *)

Definition withSwitches (config : Config) (verbose recovery : bool)
    : Config :=
  mkConfig (monitoringInterval config) (requestTimeout config)
    (retryAttempts config) (retryDelay config) (webhookUrl config)
    (serverUrls config) (successStatusCodes config) verbose recovery.

(** ** What the later statements say of records and posts *)

(** A record that is up has no failures; a record that is down has at
    least one. *)
Definition counterAgrees (r : StatusRecord) : Prop :=
  if isUp r then consecutiveFailures r = 0 else 1 <= consecutiveFailures r.

(** What a post must carry to make a readable message: the webhook URL,
    a configured target, and for a down alert an error text, the count 1
    and a time; for a recovery notification a success status code, a
    response time and a time, and the switch on. *)
Definition completeAlert (config : Config) (e : Event) : Prop :=
  match e with
  | HttpPost h (DownAlert u err failures checkedAt) =>
      h = webhookUrl config /\ u ∈ serverUrls config /\ err <> ""
      /\ failures = 1 /\ is_Some checkedAt
  | HttpPost h (RecoveryNotification u code latency recoveredAt) =>
      h = webhookUrl config /\ u ∈ serverUrls config
      /\ (exists c, code = Some c /\ c ∈ successStatusCodes config)
      /\ is_Some latency /\ is_Some recoveredAt
      /\ sendRecoveryNotifications config = true
  | _ => True
  end.

(** The element of [servers] for one entry of the map. *)
Definition entryOf (kv : string * StatusRecord) : ServerEntry :=
  mkEntry kv.1 (isUp kv.2) (lastCheck kv.2) (consecutiveFailures kv.2)
    (error kv.2).

(** The requests and delays of the probes, and the down alerts. *)
Definition isProbeOrDownAlert (e : Event) : bool :=
  match e with
  | HttpGet _ _ => true
  | Slept _ => true
  | HttpPost _ (DownAlert _ _ _ _) => true
  | _ => false
  end.

(** ** What [start] writes before the first cycle *)



(** ** What holds in every run *)

(** A record that has been written by a check has the shape of an
    answered or of a failed probe. *)
Definition checkedShape (r : StatusRecord) : Prop :=
  is_Some (lastCheck r) ->
  (isUp r = true -> answeredShape r) /\ (answeredShape r \/ failedShape r).

(** A check in flight is the check of a configured URL; the record it
    read has a counter that agrees with its [isUp], and if it is down, a
    down alert for the URL has been posted. *)
Definition flightSound (config : Config) (w : World) (f : Flight) : Prop :=
  flightUrl f ∈ serverUrls config
  /\ exists p,
       flightPrevious f = Some p /\ counterAgrees p
       /\ (isUp p = false ->
           exists j d,
             output w !! j = Some d /\ isDownAlertFor (flightUrl f) d = true).

Definition sound (config : Config) (w : World) : Prop :=
  (forall u, is_Some (serverStatus w !! u) <-> u ∈ serverUrls config)
  /\ (forall u r,
        serverStatus w !! u = Some r -> counterAgrees r /\ checkedShape r)
  /\ alerted w
  /\ ordered w
  /\ (forall e, e ∈ output w -> completeAlert config e)
  /\ (sendRecoveryNotifications config = false ->
      countOf isRecovery (output w) = 0%nat).

(** * Properties *)

(** ** The methods do what their summaries say *)

Ltac munfold :=
  unfold mbind, M_bind, bind, mret, M_ret, ret, throw, tryCatch, when,
    console, emit, elapse, dateNow, statusSet, statusGet, prop, sleep,
    axiosGet, axiosPost in *.

Lemma world_eq t t' s s' o o' :
  t = t' -> s = s' -> o = o' -> mkWorld t s o = mkWorld t' s' o'.
Proof. by intros -> -> ->. Qed.

Lemma attemptLoop_run config net url start attempts w :
  attemptLoop config net url start attempts w =
    let r := attemptRun config net url attempts in
    (respond (now w + elapsed r - start) (outcome r),
     mkWorld (now w + elapsed r) (serverStatus w) (output w ++ requests r)).
Proof.
  revert w. induction attempts as [|a rest IH]; intros w; simpl.
  - munfold. destruct w; simpl. f_equal. apply world_eq; [lia|done|].
    by rewrite app_nil_r.
  - munfold. simpl. destruct (net a) as [code t|msg t]; simpl.
    + done.
    + destruct (a =? retryAttempts config); simpl; [done|].
      rewrite IH. simpl. f_equal.
      * f_equal. lia.
      * apply world_eq; [lia|done|]. by rewrite <- !app_assoc.
Qed.

Lemma makeHttpRequest_run config net url w :
  makeHttpRequest config net url w =
    let r := probeRun config net url in
    (respond (elapsed r) (outcome r),
     mkWorld (now w + elapsed r) (serverStatus w) (output w ++ requests r)).
Proof.
  unfold makeHttpRequest. munfold. rewrite attemptLoop_run. simpl.
  unfold probeRun. do 2 f_equal. lia.
Qed.

Section Check.

Variable config : Config.

Lemma sendWebhookMessage_run reply msg ty w :
  sendWebhookMessage config reply msg ty w =
    (Normal tt,
     mkWorld (now w) (serverStatus w)
       (output w ++ delivery config reply msg ty)).
Proof.
  unfold sendWebhookMessage, delivery, deliveryLog. munfold. simpl.
  destruct reply as [code|m]; simpl.
  - destruct (code =? 200); simpl; by rewrite <- app_assoc.
  - by rewrite <- app_assoc.
Qed.

Lemma handleStatusChange_run reply url p cur w :
  handleStatusChange config reply url (Some p) cur w =
    (Normal tt,
     mkWorld (now w) (serverStatus w)
       (output w ++ notifications config reply url p cur)).
Proof.
  unfold handleStatusChange, notifications, sendDownAlert, sendRecoveryAlert.
  unfold mbind, M_bind, bind, when, prop, console, emit. simpl.
  destruct (isUp p), (isUp cur), (sendRecoveryNotifications config); simpl;
    rewrite ?sendWebhookMessage_run; simpl; unfold mret, M_ret, ret;
    rewrite <- ?app_assoc, ?app_nil_r; try done.
  all: by destruct w.
Qed.

Lemma checkAgainst_run env url p w :
  checkAgainst config env url (Some p) w =
    let cur := checkResult config env url p (now w) in
    (Normal cur,
     mkWorld (now w + elapsed (probeRun config (net env) url))
       (<[url := cur]> (serverStatus w))
       (output w ++ checkOutput config env url p (now w))).
Proof.
  unfold checkAgainst, checkResult, checkOutput, classified, checkLog.
  unfold mbind, M_bind, bind, tryCatch.
  rewrite makeHttpRequest_run. simpl.
  destruct (outcome (probeRun config (net env) url)) as [[code|]|e]; simpl.
  - destruct (includes (successStatusCodes config) code) eqn:Hup; simpl;
      destruct (enableVerboseLogging config); simpl;
      unfold statusSet; simpl; rewrite handleStatusChange_run; simpl;
      unfold mret, M_ret, ret; rewrite <- ?app_assoc; simpl; done.
  - unfold statusSet; simpl. rewrite handleStatusChange_run. simpl.
    unfold mret, M_ret, ret. by rewrite <- ?app_assoc.
  - unfold statusSet; simpl. rewrite handleStatusChange_run. simpl.
    unfold mret, M_ret, ret. by rewrite <- ?app_assoc.
Qed.

End Check.

Section Cycle.

Variable config : Config.

Lemma allSettled_run envs s t0 urls w :
  (forall u, u ∈ urls -> is_Some (s !! u)) ->
  exists t,
    allSettled t0
      (imap (fun i url => checkAgainst config (envs i) url (s !! url)) urls)
      w =
    (Normal (imap (fun i url => Normal (recordOf config envs s t0 i url)) urls),
     mkWorld t
       (fold_left write
          (imap (fun i url => (url, recordOf config envs s t0 i url)) urls)
          (serverStatus w))
       (output w ++ concat (imap (outputOf config envs s t0) urls))).
Proof.
  revert envs w. induction urls as [|u rest IH]; intros envs w Hs.
  - exists (now w). simpl. unfold mret, M_ret, ret. destruct w; simpl.
    by rewrite app_nil_r.
  - destruct (Hs u) as [p Hp]; [left|].
    destruct (IH (fun i => envs (S i))
                (setClock
                   (Z.max (now w)
                      (t0 + elapsed (probeRun config (net (envs 0%nat)) u)))
                   (mkWorld 0
                      (<[u := recordOf config envs s t0 0 u]> (serverStatus w))
                      (output w ++ outputOf config envs s t0 0 u))))
      as [t Ht].
    { intros v Hv. apply Hs. by right. }
    exists t. simpl. unfold mbind, M_bind, bind. unfold settle at 1.
    rewrite Hp, checkAgainst_run. simpl.
    unfold recordOf at 1 2, outputOf at 1 in Ht.
    rewrite (lookup_total_correct _ _ _ Hp) in Ht.
    unfold compose. unfold setClock in *. simpl in *.
    rewrite Ht. unfold mret, M_ret, ret. simpl.
    unfold recordOf at 1 3, outputOf at 2.
    rewrite (lookup_total_correct _ _ _ Hp).
    by rewrite <- app_assoc.
Qed.

Lemma tally_counts results up down :
  fold_left tally results (up, down) =
    (up + Z.of_nat (length (filter (fun r => fulfilledUp r = true) results)),
     down + Z.of_nat (length (filter (fun r => fulfilledUp r <> true)
                                results))).
Proof.
  revert up down. induction results as [|r rs IH]; intros up down; simpl.
  - f_equal; lia.
  - rewrite !filter_cons.
    destruct r as [value|e]; simpl.
    + destruct (isUp value) eqn:Hv; simpl; rewrite IH;
        repeat case_decide; try congruence; simpl; f_equal; lia.
    + rewrite IH. repeat case_decide; try congruence; simpl; f_equal; lia.
Qed.

Lemma performHealthCheck_run envs w :
  covered config w ->
  exists t,
    performHealthCheck config envs w =
      (Normal (fold_left tally (cycleResults config envs w) (0, 0)),
       mkWorld t (cycleWrites config envs w)
         (output w ++ cycleEvents config envs w)).
Proof.
  intros Hc.
  destruct (allSettled_run envs (serverStatus w) (now w) (serverUrls config)
              (mkWorld (now w) (serverStatus w)
                 (output w ++ [Console (LogStarting (now w))])) Hc)
    as [t Ht].
  exists t. unfold performHealthCheck, checkPromises.
  unfold mbind, M_bind, bind, dateNow, console, emit. simpl in *.
  rewrite Ht. unfold mret, M_ret, ret. simpl.
  unfold cycleResults, cycleWrites, cycleEvents.
  f_equal. apply world_eq; [done|done|].
  rewrite <- !app_assoc. simpl. done.
Qed.

End Cycle.

(** ** Writes to the status map *)

Lemma writes_lookup_other (kvs : list (string * StatusRecord)) m u :
  u ∉ kvs.*1 -> fold_left write kvs m !! u = m !! u.
Proof.
  revert m. induction kvs as [|[k v] kvs IH]; intros m Hu; simpl; [done|].
  rewrite IH.
  - unfold write. simpl. apply lookup_insert_ne. intros ->. apply Hu. by left.
  - intros Hin. apply Hu. by right.
Qed.

Lemma writes_lookup_nodup (kvs : list (string * StatusRecord)) m i u st :
  NoDup kvs.*1 -> kvs !! i = Some (u, st) ->
  fold_left write kvs m !! u = Some st.
Proof.
  revert m i. induction kvs as [|[k v] kvs IH]; intros m i Hnd Hi; [done|].
  simpl in Hnd. apply NoDup_cons in Hnd as [Hk Hnd].
  destruct i as [|i]; simpl in *.
  - injection Hi as -> ->. rewrite writes_lookup_other by done.
    unfold write. simpl. apply lookup_insert_eq.
  - by apply (IH _ i).
Qed.

Lemma writes_is_Some (kvs : list (string * StatusRecord)) m u :
  is_Some (m !! u) -> is_Some (fold_left write kvs m !! u).
Proof.
  revert m. induction kvs as [|[k v] kvs IH]; intros m H; simpl; [done|].
  apply IH. unfold write. simpl. destruct (decide (k = u)) as [->|Hne].
  - rewrite lookup_insert_eq. eauto.
  - by rewrite lookup_insert_ne.
Qed.

Lemma fst_imap_pair {B} (f : nat -> string -> B) (urls : list string) :
  (imap (fun i url => (url, f i url)) urls).*1 = urls.
Proof.
  revert f. induction urls as [|u rest IH]; intros f; simpl; [done|].
  f_equal. apply (IH (fun i => f (S i))).
Qed.

(** ** Counting events *)

Lemma countOf_app f evs1 evs2 :
  countOf f (evs1 ++ evs2) = (countOf f evs1 + countOf f evs2)%nat.
Proof. unfold countOf. by rewrite List.filter_app, length_app. Qed.

Lemma countOf_none f evs :
  (forall e, e ∈ evs -> f e = false) -> countOf f evs = 0%nat.
Proof.
  unfold countOf. induction evs as [|e evs IH]; intros H; simpl; [done|].
  rewrite (H e) by left. apply IH. intros e' He'. apply H. by right.
Qed.

Lemma countOf_concat_imap f (chunk : nat -> string -> list Event) urls i u :
  urls !! i = Some u ->
  (forall j v, urls !! j = Some v -> j <> i -> countOf f (chunk j v) = 0%nat) ->
  countOf f (concat (imap chunk urls)) = countOf f (chunk i u).
Proof.
  revert chunk i. induction urls as [|v rest IH]; intros chunk i Hi H;
    [done|].
  simpl. rewrite countOf_app. destruct i as [|i]; simpl in Hi.
  - injection Hi as ->.
    assert (countOf f (concat (imap (chunk ∘ S) rest)) = 0%nat) as ->; [|lia].
    clear IH. revert chunk H. induction rest as [|x rest IH]; intros chunk H;
      simpl; [done|].
    rewrite countOf_app. rewrite (H 1%nat x) by done.
    simpl.
    apply (IH (fun j => match j with
                        | O => chunk O
                        | S j => chunk (S (S j))
                        end)).
    intros j y Hj Hne. destruct j as [|j]; [done|]. simpl in Hj.
    apply (H (S (S j))); [done|lia].
  - rewrite (H 0%nat v) by done. simpl.
    apply (IH (chunk ∘ S) i Hi).
    intros j y Hj Hne. apply (H (S j)); [done|lia].
Qed.

Section Counting.

Variable config : Config.

Lemma requests_only f net url attempts :
  (forall e, isRequest e || isSleep e = true -> f e = false) ->
  countOf f (requests (attemptRun config net url attempts)) = 0%nat.
Proof.
  intros Hf. apply countOf_none. intros e.
  induction attempts as [|a rest IH]; simpl.
  - by intros ?%elem_of_nil.
  - destruct (net a) as [code t|msg t]; simpl.
    + intros ->%list_elem_of_singleton. by apply Hf.
    + destruct (a =? retryAttempts config); simpl.
      * intros ->%list_elem_of_singleton. by apply Hf.
      * intros [->|[->|He]%elem_of_cons]%elem_of_cons; auto.
Qed.

Lemma checkLog_only f url r :
  (forall line, f (Console line) = false) ->
  countOf f (checkLog config url r) = 0%nat.
Proof.
  intros Hf. apply countOf_none. intros e. unfold checkLog.
  destruct (outcome r) as [[code|]|err];
    [destruct (enableVerboseLogging config)|..];
    rewrite ?list_elem_of_singleton; try (by intros ?%elem_of_nil);
    by intros ->.
Qed.

Lemma downAlerts_notifications u reply v p cur :
  countOf (isDownAlertFor u) (notifications config reply v p cur) =
    if bool_decide (v = u) && isUp p && negb (isUp cur)
    then 1%nat else 0%nat.
Proof.
  unfold notifications, countOf, delivery, downMessage, recoveryMessage.
  destruct (isUp p), (isUp cur), (sendRecoveryNotifications config);
    simpl; by destruct (bool_decide (v = u)).
Qed.

Lemma recoveries_notifications u reply v p cur :
  countOf (isRecoveryFor u) (notifications config reply v p cur) =
    if bool_decide (v = u) && negb (isUp p) && isUp cur
       && sendRecoveryNotifications config
    then 1%nat else 0%nat.
Proof.
  unfold notifications, countOf, delivery, downMessage, recoveryMessage.
  destruct (isUp p), (isUp cur), (sendRecoveryNotifications config);
    simpl; by destruct (bool_decide (v = u)).
Qed.

Lemma downAlerts_checkOutput u env v p t0 :
  countOf (isDownAlertFor u) (checkOutput config env v p t0) =
    if bool_decide (v = u) && isUp p
       && negb (isUp (checkResult config env v p t0))
    then 1%nat else 0%nat.
Proof.
  unfold checkOutput. rewrite !countOf_app.
  unfold probeRun. rewrite requests_only, checkLog_only; try done.
  - apply downAlerts_notifications.
  - by intros [].
Qed.

Lemma recoveries_checkOutput u env v p t0 :
  countOf (isRecoveryFor u) (checkOutput config env v p t0) =
    if bool_decide (v = u) && negb (isUp p)
       && isUp (checkResult config env v p t0)
       && sendRecoveryNotifications config
    then 1%nat else 0%nat.
Proof.
  unfold checkOutput. rewrite !countOf_app.
  unfold probeRun. rewrite requests_only, checkLog_only; try done.
  - apply recoveries_notifications.
  - by intros [].
Qed.

Lemma cycle_run c w :
  covered config w ->
  serverStatus (cycle config c w) =
    cycleWrites config (checks c) (setClock (startsAt c) w)
  /\ output (cycle config c w) =
       output w ++ cycleEvents config (checks c) (setClock (startsAt c) w).
Proof.
  intros Hc. unfold cycle, exec.
  destruct (performHealthCheck_run config (checks c)
              (setClock (startsAt c) w) Hc) as [t ->].
  done.
Qed.

Lemma cycleOutput_run c w :
  covered config w ->
  cycleOutput config c w
  = cycleEvents config (checks c) (setClock (startsAt c) w).
Proof.
  intros Hc. unfold cycleOutput.
  destruct (cycle_run c w Hc) as [_ ->]. by rewrite drop_app_length.
Qed.

Lemma cycle_covered c w : covered config w -> covered config (cycle config c w).
Proof.
  intros Hc u Hu. destruct (cycle_run c w Hc) as [-> _].
  apply writes_is_Some. by apply Hc.
Qed.

Lemma initializeStatus_run urls w :
  initializeStatus urls w =
    (Normal tt,
     mkWorld (now w)
       (fold_left write (map (fun u => (u, initialStatus)) urls)
          (serverStatus w))
       (output w)).
Proof.
  revert w. induction urls as [|u rest IH]; intros w; simpl.
  - by destruct w.
  - unfold mbind, M_bind, bind, statusSet. by rewrite IH.
Qed.

Lemma initialized_lookup t u :
  serverStatus (initialized config t) !! u =
    if decide (u ∈ serverUrls config) then Some initialStatus else None.
Proof.
  unfold initialized, exec. rewrite initializeStatus_run. simpl.
  case_decide as Hu.
  - assert (forall m,
              fold_left write
                (map (fun u => (u, initialStatus)) (serverUrls config)) m
              !! u = Some initialStatus) as H; [|apply H].
    induction (serverUrls config) as [|v rest IH]; intros m.
    + by apply elem_of_nil in Hu.
    + simpl. destruct (decide (u ∈ rest)) as [Hin|Hnin]; [by apply IH|].
      apply elem_of_cons in Hu as [->|Hu]; [|done].
      rewrite writes_lookup_other.
      * unfold write. simpl. apply lookup_insert_eq.
      * rewrite <- list_fmap_compose. simpl.
        by rewrite list_fmap_id.
  - rewrite writes_lookup_other; [done|].
    rewrite <- list_fmap_compose. simpl. by rewrite list_fmap_id.
Qed.

(** With pairwise different URLs, the record of the i-th URL after a
    cycle is the one its own check built. *)
Lemma cycle_lookup c w i u :
  covered config w -> NoDup (serverUrls config) ->
  serverUrls config !! i = Some u ->
  serverStatus (cycle config c w) !! u =
    Some (recordOf config (checks c) (serverStatus w) (startsAt c) i u).
Proof.
  intros Hc Hnd Hi. destruct (cycle_run c w Hc) as [-> _].
  unfold cycleWrites. simpl.
  apply (writes_lookup_nodup _ _ i).
  - by rewrite fst_imap_pair.
  - rewrite list_lookup_imap, Hi. done.
Qed.

End Counting.

(** ** The probe: retries and delays *)

Section Retries.

Variable config : Config.

Lemma includes_spec codes code : includes codes code = true <-> code ∈ codes.
Proof.
  unfold includes. rewrite existsb_exists. split.
  - intros (x & Hx & ->%Z.eqb_eq). by apply list_elem_of_In.
  - intros H. exists code. split; [by apply list_elem_of_In|apply Z.eqb_refl].
Qed.

(** The attempts [first .. n - 1] fail and attempt [n] is answered. *)
Lemma attemptRun_answered net url (m : nat) : forall first n code t,
  Z.to_nat (n - first) = m ->
  first <= n <= retryAttempts config ->
  (forall k, first <= k < n -> fails net k) ->
  net n = Responded code t ->
  let r := attemptRun config net url
             (seqZ first (retryAttempts config - first + 1)) in
  outcome r = Normal (Some code)
  /\ requests r = expectedRequests url (retryDelay config) first n
  /\ elapsed r =
       sumZ (fun k => took (net k)) (seqZ first (n - first))
       + sumZ (fun k => Z.max 0 (retryDelay config * k))
           (seqZ first (n - first))
       + t.
Proof.
  induction m as [|m IH]; intros first n code t Hm Hn Hfail Hnet.
  - assert (n = first) as -> by lia.
    rewrite seqZ_cons by lia. simpl. rewrite Hnet. simpl.
    unfold expectedRequests. rewrite !seqZ_nil by lia. simpl. split_and!;
      [done|done|lia].
  - destruct (Hfail first) as (msg & t' & Hf); [lia|].
    rewrite seqZ_cons by lia. simpl. rewrite Hf.
    assert ((first =? retryAttempts config) = false) as -> by lia.
    replace (Z.succ first) with (first + 1) by lia.
    replace (Z.pred (retryAttempts config - first + 1))
      with (retryAttempts config - (first + 1) + 1) by lia.
    destruct (IH (first + 1) n code t) as (Ho & Hr & He);
      [lia|lia|intros k Hk; apply Hfail; lia|done|].
    simpl. rewrite Ho, Hr, He. split_and!; [done|..].
    + unfold expectedRequests. f_equal.
      rewrite (seqZ_cons (first + 1) (n - first)) by lia. simpl.
      replace (first + 1 - 1) with first by lia. do 2 f_equal.
      replace (Z.succ (first + 1)) with (first + 1 + 1) by lia.
      by replace (Z.pred (n - first)) with (n - (first + 1)) by lia.
    + rewrite (seqZ_cons first (n - first)) by lia. simpl. rewrite Hf. simpl.
      replace (Z.succ first) with (first + 1) by lia.
      replace (Z.pred (n - first)) with (n - (first + 1)) by lia. lia.
Qed.

(** Every attempt [first .. retryAttempts] fails. *)
Lemma attemptRun_exhausted net url (m : nat) : forall first,
  Z.to_nat (retryAttempts config - first) = m ->
  first <= retryAttempts config ->
  (forall k, first <= k <= retryAttempts config -> fails net k) ->
  let r := attemptRun config net url
             (seqZ first (retryAttempts config - first + 1)) in
  (exists e, outcome r = Thrown e)
  /\ requests r =
       expectedRequests url (retryDelay config) first (retryAttempts config).
Proof.
  induction m as [|m IH]; intros first Hm Hn Hfail;
    destruct (Hfail first) as (msg & t' & Hf); try lia;
    rewrite seqZ_cons by lia; simpl; rewrite Hf.
  - assert (first = retryAttempts config) as Heq by lia.
    rewrite <- Heq. rewrite Z.eqb_refl. simpl. split; [eauto|].
    unfold expectedRequests. by rewrite seqZ_nil by lia.
  - assert ((first =? retryAttempts config) = false) as -> by lia.
    replace (Z.succ first) with (first + 1) by lia.
    replace (Z.pred (retryAttempts config - first + 1))
      with (retryAttempts config - (first + 1) + 1) by lia.
    destruct (IH (first + 1)) as (He & Hr);
      [lia|lia|intros k Hk; apply Hfail; lia|].
    simpl. rewrite Hr. split; [done|].
    unfold expectedRequests. f_equal.
    rewrite (seqZ_cons (first + 1) (retryAttempts config - first)) by lia.
    simpl. replace (first + 1 - 1) with first by lia. do 2 f_equal.
    replace (Z.succ (first + 1)) with (first + 1 + 1) by lia.
    by replace (Z.pred (retryAttempts config - first))
      with (retryAttempts config - (first + 1)) by lia.
Qed.


Lemma probe_answered net url n code t :
  1 <= n <= retryAttempts config ->
  (forall k, 1 <= k < n -> fails net k) ->
  net n = Responded code t ->
  let r := probeRun config net url in
  outcome r = Normal (Some code)
  /\ requests r = expectedRequests url (retryDelay config) 1 n
  /\ elapsed r =
       sumZ (fun k => took (net k)) (seqZ 1 (n - 1))
       + sumZ (fun k => Z.max 0 (retryDelay config * k)) (seqZ 1 (n - 1))
       + t.
Proof.
  intros Hn Hfail Hnet. unfold probeRun.
  pose proof (attemptRun_answered net url (Z.to_nat (n - 1)) 1 n code t
                eq_refl Hn Hfail Hnet) as H.
  by replace (retryAttempts config - 1 + 1) with (retryAttempts config) in H
    by lia.
Qed.

Lemma probe_exhausted net url :
  1 <= retryAttempts config ->
  (forall k, 1 <= k <= retryAttempts config -> fails net k) ->
  let r := probeRun config net url in
  (exists e, outcome r = Thrown e)
  /\ requests r =
       expectedRequests url (retryDelay config) 1 (retryAttempts config).
Proof.
  intros Hn Hfail. unfold probeRun.
  pose proof (attemptRun_exhausted net url
                (Z.to_nat (retryAttempts config - 1)) 1 eq_refl Hn Hfail)
    as H.
  by replace (retryAttempts config - 1 + 1) with (retryAttempts config) in H
    by lia.
Qed.

End Retries.

Lemma sumZ_le f ks c :
  (forall k, k ∈ ks -> f k <= c) -> sumZ f ks <= Z.of_nat (length ks) * c.
Proof.
  induction ks as [|k ks IH]; intros H; simpl; [lia|].
  assert (f k <= c) by (apply H; by left).
  assert (sumZ f ks <= Z.of_nat (length ks) * c)
    by (apply IH; intros; apply H; by right).
  unfold sumZ in *. lia.
Qed.

(** ** The claims about the probe and the classification *)

(** C1: the record a check stores has [isUp = true] exactly when the
    probe was answered and the status code of the answer is one of
    [successStatusCodes]; with the default codes an answer 404 gives
    [isUp = false], and so does a probe whose attempts all fail. *)
Theorem isUp_iff_answered_with_success_code config env url p w :
  serverStatus w !! url = Some p ->
  exists cur,
    eval (checkServerHealth config env url) w = Normal cur
    /\ serverStatus (exec (checkServerHealth config env url) w) !! url
       = Some cur
    /\ (isUp cur = true <->
        exists resp,
          eval (makeHttpRequest config (net env) url) w = Normal (Some resp)
          /\ status resp ∈ successStatusCodes config)
    /\ (successStatusCodes config = defaultSuccessStatusCodes ->
        forall resp,
          eval (makeHttpRequest config (net env) url) w = Normal (Some resp) ->
          status resp = 404 -> isUp cur = false)
    /\ (forall e,
          eval (makeHttpRequest config (net env) url) w = Thrown e ->
          isUp cur = false)
    /\ (1 <= retryAttempts config ->
        (forall k, 1 <= k <= retryAttempts config -> fails (net env) k) ->
        isUp cur = false).
Proof.
  intros Hp. unfold checkServerHealth, eval, exec.
  unfold mbind, M_bind, bind, statusGet. rewrite Hp, checkAgainst_run.
  rewrite makeHttpRequest_run. simpl.
  exists (checkResult config env url p (now w)).
  split; [done|]. split; [apply lookup_insert_eq|].
  unfold checkResult, classified.
  pose proof (probe_exhausted config (net env) url) as Hex.
  destruct (outcome (probeRun config (net env) url)) as [[code|]|e] eqn:Ho;
    simpl.
  - split_and!.
    + rewrite includes_spec. split.
      * intros Hin. by eexists (mkResponse code _).
      * intros (resp & [= <-] & Hin). done.
    + intros Hdef resp [= <-] Hst. simpl in Hst. subst code.
      by rewrite Hdef.
    + done.
    + intros Hn Hf. destruct (Hex Hn Hf) as [[e He] _]. congruence.
  - split_and!; try done. split; [done|]. by intros (resp & ? & _).
  - split_and!; try done. split; [done|]. by intros (resp & ? & _).
Qed.

Lemma isUp_iff_answered_with_success_code_witness :
  exists cur,
    eval (checkServerHealth exampleConfig (answers 404 35)
            "https://good.example") (initialized exampleConfig 0)
      = Normal cur
    /\ isUp cur = false.
Proof.
  destruct (isUp_iff_answered_with_success_code exampleConfig (answers 404 35)
              "https://good.example" initialStatus
              (initialized exampleConfig 0))
    as (cur & Hcur & _ & _ & H404 & _).
  - vm_compute. reflexivity.
  - exists cur. split; [exact Hcur|].
    apply (H404 eq_refl (mkResponse 404 35)); reflexivity.
Defined.



(** C10: the [responseTime] of an answered probe is the time from the
    start of the first attempt to the answer: the durations of the failed
    attempts, the delays between the attempts and the duration of the
    answered attempt; when no failed attempt lasts longer than
    [requestTimeout], it exceeds the duration of the answered attempt by
    at most [(n - 1) * requestTimeout] plus the delays.  The check stores
    this value. *)
Theorem responseTime_spans_all_attempts config env url p w n code t :
  serverStatus w !! url = Some p ->
  1 <= n <= retryAttempts config ->
  (forall k, 1 <= k < n -> fails (net env) k) ->
  net env n = Responded code t ->
  let delays :=
    sumZ (fun k => Z.max 0 (retryDelay config * k)) (seqZ 1 (n - 1)) in
  exists resp,
    eval (makeHttpRequest config (net env) url) w = Normal (Some resp)
    /\ status resp = code
    /\ resp_responseTime resp
       = now (exec (makeHttpRequest config (net env) url) w) - now w
    /\ resp_responseTime resp
       = sumZ (fun k => took (net env k)) (seqZ 1 (n - 1)) + delays + t
    /\ ((forall k, 1 <= k < n -> took (net env k) <= requestTimeout config) ->
        resp_responseTime resp - t
        <= (n - 1) * requestTimeout config + delays)
    /\ (responseTime <$>
          serverStatus (exec (checkServerHealth config env url) w) !! url)
       = Some (Some (resp_responseTime resp)).
Proof.
  intros Hp Hn Hf Hnet delays.
  destruct (probe_answered config (net env) url n code t Hn Hf Hnet)
    as (Ho & _ & He).
  unfold eval, exec, checkServerHealth.
  unfold mbind, M_bind, bind, statusGet. rewrite Hp, checkAgainst_run.
  rewrite makeHttpRequest_run. simpl. rewrite Ho. simpl.
  eexists. split; [done|]. simpl. split_and!; [done|lia|exact He| |].
  - intros Hto. rewrite He.
    pose proof (sumZ_le (fun k => took (net env k)) (seqZ 1 (n - 1))
                  (requestTimeout config)) as Hle.
    rewrite length_seqZ in Hle.
    assert (Z.of_nat (Z.to_nat (n - 1)) = n - 1) as Hlen by lia.
    rewrite Hlen in Hle. fold delays.
    assert (sumZ (fun k => took (net env k)) (seqZ 1 (n - 1))
            <= (n - 1) * requestTimeout config); [|lia].
    apply Hle. intros k Hk%elem_of_seqZ. apply Hto. lia.
  - rewrite lookup_insert_eq. simpl. unfold checkResult, classified.
    by rewrite Ho.
Qed.

Lemma responseTime_spans_all_attempts_witness :
  exists resp,
    eval (makeHttpRequest exampleConfig (net flaky) "https://bad.example")
      (initialized exampleConfig 0) = Normal (Some resp)
    /\ resp_responseTime resp = 10000 + 10000 + (1000 + 2000) + 120.
Proof.
  destruct (responseTime_spans_all_attempts exampleConfig flaky
              "https://bad.example" initialStatus
              (initialized exampleConfig 0) 3 200 120)
    as (resp & Hr & _ & _ & Ht & _).
  - vm_compute. reflexivity.
  - vm_compute. split; discriminate.
  - intros k Hk. assert (k = 1 \/ k = 2) as [->| ->] by lia;
      by eexists _, _.
  - reflexivity.
  - exists resp. split; [exact Hr|]. rewrite Ht. reflexivity.
Defined.

(** ** One target across cycles *)

Section Target.

Variable config : Config.

Hypothesis distinct : NoDup (serverUrls config).

Lemma cycle_record c w i u :
  covered config w -> serverUrls config !! i = Some u ->
  serverStatus (cycle config c w) !!! u =
    checkResult config (checks c i) u (serverStatus w !!! u) (startsAt c).
Proof.
  intros Hc Hi. apply lookup_total_correct.
  by rewrite (cycle_lookup config c w i u).
Qed.

Lemma cycle_notifications c w i u :
  covered config w -> serverUrls config !! i = Some u ->
  countOf (isDownAlertFor u) (cycleOutput config c w) =
    (if upAt u w && negb (upAt u (cycle config c w)) then 1 else 0)%nat
  /\ countOf (isRecoveryFor u) (cycleOutput config c w) =
       (if negb (upAt u w) && upAt u (cycle config c w)
           && sendRecoveryNotifications config
        then 1 else 0)%nat.
Proof.
  intros Hc Hi. rewrite cycleOutput_run by done. unfold cycleEvents.
  change (?e :: ?l ++ ?l') with ([e] ++ l ++ l').
  rewrite !countOf_app. simpl.
  unfold upAt. rewrite (cycle_record c w i u) by done.
  assert (forall j v, serverUrls config !! j = Some v -> j <> i ->
                      bool_decide (v = u) = false) as Hother.
  { intros j v Hj Hne. apply bool_decide_eq_false. intros ->.
    apply Hne. by apply (NoDup_lookup (serverUrls config) j i u). }
  split.
  - rewrite (countOf_concat_imap _ _ _ i u Hi).
    + unfold outputOf. rewrite downAlerts_checkOutput.
      rewrite bool_decide_eq_true_2 by done. simpl.
      unfold countOf. simpl. lia.
    + intros j v Hj Hne. unfold outputOf. rewrite downAlerts_checkOutput.
      by rewrite (Hother j v).
  - rewrite (countOf_concat_imap _ _ _ i u Hi).
    + unfold outputOf. rewrite recoveries_checkOutput.
      rewrite bool_decide_eq_true_2 by done. simpl.
      unfold countOf. simpl. lia.
    + intros j v Hj Hne. unfold outputOf. rewrite recoveries_checkOutput.
      by rewrite (Hother j v).
Qed.


End Target.

Lemma runCycles_snoc config cs c w :
  runCycles config (cs ++ [c]) w = cycle config c (runCycles config cs w).
Proof. unfold runCycles. by rewrite fold_left_app. Qed.


(** ** Notifications across cycles *)


Lemma runCycles_covered config cs w :
  covered config w -> covered config (runCycles config cs w).
Proof.
  intros Hc. induction cs as [|c cs IH] using rev_ind; [done|].
  rewrite runCycles_snoc. by apply cycle_covered.
Qed.

Lemma cycle_output config c w :
  covered config w ->
  output (cycle config c w) = output w ++ cycleOutput config c w.
Proof.
  intros Hc. unfold cycleOutput. destruct (cycle_run config c w Hc) as [_ ->].
  by rewrite drop_app_length.
Qed.

Lemma runCycles_output config cs w :
  covered config w ->
  output (runCycles config cs w) = output w ++ runOutput config cs w.
Proof.
  intros Hc. unfold runOutput.
  induction cs as [|c cs IH] using rev_ind; simpl.
  - by rewrite drop_all, app_nil_r.
  - rewrite runCycles_snoc.
    rewrite cycle_output by by apply runCycles_covered.
    rewrite IH at 1 2. rewrite <- app_assoc. by rewrite drop_app_length.
Qed.

Lemma runOutput_snoc config cs c w :
  covered config w ->
  runOutput config (cs ++ [c]) w =
    runOutput config cs w ++ cycleOutput config c (runCycles config cs w).
Proof.
  intros Hc. unfold runOutput at 1. rewrite runCycles_snoc.
  rewrite cycle_output by by apply runCycles_covered.
  rewrite runCycles_output by done. rewrite <- app_assoc.
  by rewrite drop_app_length.
Qed.

(** ** Alerts come before recoveries *)

Section Order.

Variable config : Config.

Lemma requests_elem net url attempts e :
  e ∈ requests (attemptRun config net url attempts) -> isPost e = false.
Proof.
  induction attempts as [|a rest IH]; simpl.
  - by intros ?%elem_of_nil.
  - destruct (net a) as [code t|msg t]; simpl.
    + by intros ->%list_elem_of_singleton.
    + destruct (a =? retryAttempts config); simpl.
      * by intros ->%list_elem_of_singleton.
      * intros [->|[->|He]%elem_of_cons]%elem_of_cons; auto.
Qed.

Lemma checkLog_elem url r e :
  e ∈ checkLog config url r -> isPost e = false.
Proof.
  unfold checkLog.
  destruct (outcome r) as [[code|]|err];
    [destruct (enableVerboseLogging config)|..];
    rewrite ?list_elem_of_singleton; try (by intros ?%elem_of_nil);
    by intros ->.
Qed.

Lemma notifications_post reply v p cur e :
  e ∈ notifications config reply v p cur -> isPost e = true ->
  (e = HttpPost (webhookUrl config) (downMessage v cur)
   /\ isUp p = true /\ isUp cur = false)
  \/ (e = HttpPost (webhookUrl config) (recoveryMessage v cur)
      /\ isUp p = false /\ isUp cur = true).
Proof.
  unfold notifications, delivery.
  destruct (isUp p), (isUp cur), (sendRecoveryNotifications config); simpl;
    rewrite ?elem_of_cons; intros H Hpost;
    repeat match goal with
      | H : _ \/ _ |- _ => destruct H as [->|H]
      | H : _ ∈ [] |- _ => by apply elem_of_nil in H
      end; try discriminate; auto.
Qed.

Lemma notifications_down reply v p cur :
  isUp p = true -> isUp cur = false ->
  HttpPost (webhookUrl config) (downMessage v cur)
  ∈ notifications config reply v p cur.
Proof.
  intros Hp Hcur. unfold notifications, delivery. rewrite Hp, Hcur. simpl.
  right. by left.
Qed.

End Order.

(** ** What a check builds and what it posts *)

Lemma classified_shape config p t0 r :
  (isUp (classified config p t0 r) = true ->
   answeredShape (classified config p t0 r))
  /\ (answeredShape (classified config p t0 r)
      \/ failedShape (classified config p t0 r))
  /\ is_Some (lastCheck (classified config p t0 r)).
Proof.
  unfold classified, answeredShape, failedShape.
  destruct (outcome r) as [[code|]|e]; simpl; naive_solver eauto.
Qed.

Lemma classified_counterAgrees config p t0 r :
  0 <= consecutiveFailures p -> counterAgrees (classified config p t0 r).
Proof.
  intros Hp. unfold classified, counterAgrees.
  destruct (outcome r) as [[code|]|e]; simpl; try lia.
  destruct (includes (successStatusCodes config) code); lia.
Qed.

Lemma counterAgrees_nonneg r : counterAgrees r -> 0 <= consecutiveFailures r.
Proof. unfold counterAgrees. destruct (isUp r); lia. Qed.

Lemma orElse_nonempty x d : d <> "" -> orElse x d <> "".
Proof.
  intros Hd. unfold orElse. destruct x as [| |s]; try done.
  by case_decide.
Qed.

Lemma classified_down config p t0 r :
  isUp (classified config p t0 r) = false ->
  consecutiveFailures (classified config p t0 r) = consecutiveFailures p + 1
  /\ is_Some (lastCheck (classified config p t0 r)).
Proof.
  unfold classified. destruct (outcome r) as [[code|]|e]; simpl; eauto.
  destruct (includes (successStatusCodes config) code); [done|eauto].
Qed.

Lemma classified_up config p t0 r :
  isUp (classified config p t0 r) = true ->
  (exists c, statusCode (classified config p t0 r) = Some c
             /\ c ∈ successStatusCodes config)
  /\ is_Some (responseTime (classified config p t0 r))
  /\ is_Some (lastCheck (classified config p t0 r)).
Proof.
  unfold classified. destruct (outcome r) as [[code|]|e]; simpl; try done.
  intros Hin%includes_spec. eauto.
Qed.

Lemma notifications_complete config reply v p cur e :
  v ∈ serverUrls config ->
  (isUp p = true -> consecutiveFailures p = 0) ->
  (isUp cur = false ->
   consecutiveFailures cur = consecutiveFailures p + 1
   /\ is_Some (lastCheck cur)) ->
  (isUp cur = true ->
   (exists c, statusCode cur = Some c /\ c ∈ successStatusCodes config)
   /\ is_Some (responseTime cur) /\ is_Some (lastCheck cur)) ->
  e ∈ notifications config reply v p cur ->
  completeAlert config e.
Proof.
  intros Hv Hp Hdown Hup. unfold notifications, delivery.
  destruct (isUp p) eqn:Ep, (isUp cur) eqn:Ec,
    (sendRecoveryNotifications config) eqn:Es; simpl;
    rewrite ?elem_of_cons; intros He;
    repeat match goal with
      | H : _ \/ _ |- _ => destruct H as [->|H]
      | H : _ ∈ [] |- _ => by apply elem_of_nil in H
      end; simpl; try done.
  - destruct (Hdown eq_refl) as [Hcf Hlast].
    split_and!; try done; [by apply orElse_nonempty|].
    rewrite Hcf, Hp; done.
  - destruct (Hdown eq_refl) as [Hcf Hlast].
    split_and!; try done; [by apply orElse_nonempty|].
    rewrite Hcf, Hp; done.
  - destruct (Hup eq_refl) as (Hc & Hl & Hlast). by split_and!.
Qed.

(** ** [Promise.allSettled] *)

Lemma allSettled_total {A} (start : Z) (promises : list (M A)) w :
  exists rs w',
    allSettled start promises w = (Normal rs, w')
    /\ length rs = length promises
    /\ forall i r,
         rs !! i = Some r ->
         exists p w1, promises !! i = Some p /\ r = eval p w1.
Proof.
  revert w. induction promises as [|p rest IH]; intros w; simpl.
  - exists [], w. by split_and!.
  - unfold mbind, M_bind, bind, settle.
    destruct (p (setClock start w)) as [r w1] eqn:Hp.
    destruct (IH (setClock (Z.max (now w) (now w1)) w1))
      as (rs & w' & -> & Hlen & Hrs).
    exists (r :: rs), w'. split_and!; [done|simpl; by rewrite Hlen|].
    intros [|i] r' Hi; simpl in *.
    + injection Hi as <-. exists p, (setClock start w).
      split; [done|]. unfold eval. by rewrite Hp.
    + by apply Hrs.
Qed.

(** ** The probe and the answers of the target *)

Lemma attemptRun_firstAnswer config net url (m : nat) : forall first,
  Z.to_nat (retryAttempts config - first + 1) = m ->
  match firstAnswer net (seqZ first (retryAttempts config - first + 1)) with
  | Some code =>
      outcome (attemptRun config net url
                 (seqZ first (retryAttempts config - first + 1)))
      = Normal (Some code)
  | None =>
      forall code,
        outcome (attemptRun config net url
                   (seqZ first (retryAttempts config - first + 1)))
        <> Normal (Some code)
  end.
Proof.
  induction m as [|m IH]; intros first Hm.
  - by rewrite seqZ_nil by lia.
  - rewrite seqZ_cons by lia. simpl.
    destruct (net first) as [code t|msg t]; simpl; [done|].
    destruct (Z.eqb_spec first (retryAttempts config)) as [Heq|Hne]; simpl.
    + replace (Z.pred (retryAttempts config - first + 1)) with 0 by lia.
      by rewrite seqZ_nil by lia.
    + replace (Z.succ first) with (first + 1) by lia.
      replace (Z.pred (retryAttempts config - first + 1))
        with (retryAttempts config - (first + 1) + 1) by lia.
      apply IH. lia.
Qed.

Lemma checkResult_isUp config env url p t0 :
  isUp (checkResult config env url p t0) = healthy config env.
Proof.
  unfold checkResult, classified, healthy, probeRun.
  pose proof (attemptRun_firstAnswer config (net env) url _ 1 eq_refl) as H.
  replace (retryAttempts config - 1 + 1) with (retryAttempts config) in H
    by lia.
  destruct (firstAnswer (net env) (seqZ 1 (retryAttempts config)))
    as [code|].
  - by rewrite H.
  - destruct (outcome _) as [[code|]|e]; [|done|done].
    by destruct (H code).
Qed.


Lemma checkServerHealth_run config env url p w :
  serverStatus w !! url = Some p ->
  checkServerHealth config env url w =
    (Normal (checkResult config env url p (now w)),
     mkWorld (now w + elapsed (probeRun config (net env) url))
       (<[url := checkResult config env url p (now w)]> (serverStatus w))
       (output w ++ checkOutput config env url p (now w))).
Proof.
  intros Hp. unfold checkServerHealth, mbind, M_bind, bind, statusGet.
  by rewrite Hp, checkAgainst_run.
Qed.

Lemma checkOutputOf_run config env url p w :
  serverStatus w !! url = Some p ->
  checkOutputOf config env url w = checkOutput config env url p (now w).
Proof.
  intros Hp. unfold checkOutputOf, exec.
  rewrite (checkServerHealth_run config env url p w Hp). simpl.
  by rewrite drop_app_length.
Qed.

(** Every post of a check is a down alert or a recovery notification
    for the URL of the check. *)
Lemma posts_checkOutput_sum config env v p t0 :
  countOf isPost (checkOutput config env v p t0)
  = (countOf (isDownAlertFor v) (checkOutput config env v p t0)
     + countOf (isRecoveryFor v) (checkOutput config env v p t0))%nat.
Proof.
  rewrite downAlerts_checkOutput, recoveries_checkOutput.
  rewrite bool_decide_eq_true_2 by done.
  unfold checkOutput. rewrite !countOf_app. unfold probeRun.
  rewrite requests_only, checkLog_only; try done; [|by intros []].
  unfold notifications, delivery, countOf.
  by destruct (isUp p), (isUp _), (sendRecoveryNotifications config).
Qed.

Lemma cycle_upAt config (distinct : NoDup (serverUrls config)) c w i u :
  covered config w -> serverUrls config !! i = Some u ->
  upAt u (cycle config c w) = healthy config (checks c i).
Proof.
  intros Hc Hi. unfold upAt.
  rewrite (cycle_record config distinct c w i u Hc Hi).
  apply checkResult_isUp.
Qed.

(** ** Runs with overlapping cycles *)

Lemma initialized_run config t :
  initialized config t = mkWorld t (serverStatus (initialized config t)) [].
Proof. unfold initialized, exec. by rewrite initializeStatus_run. Qed.

Lemma initialized_output config t : output (initialized config t) = [].
Proof. by rewrite initialized_run. Qed.

Lemma land_run config f p w :
  flightPrevious f = Some p ->
  land config f w =
    mkWorld
      (Z.max (now w)
         (flightStart f
          + elapsed (probeRun config (net (flightEnv f)) (flightUrl f))))
      (<[flightUrl f
         := checkResult config (flightEnv f) (flightUrl f) p (flightStart f)]>
         (serverStatus w))
      (output w
       ++ checkOutput config (flightEnv f) (flightUrl f) p (flightStart f)).
Proof.
  intros Hp. unfold land, exec, settle. by rewrite Hp, checkAgainst_run.
Qed.

Lemma sound_ext config w w' :
  serverStatus w' = serverStatus w -> output w' = output w ->
  sound config w -> sound config w'.
Proof.
  intros Hs Ho H. unfold sound, alerted, ordered, upAt in *.
  by rewrite Hs, Ho.
Qed.

Lemma sound_init config t : sound config (initialized config t).
Proof.
  pose proof (initialized_output config t) as Ho.
  refine (conj _ (conj _ (conj _ (conj _ (conj _ _))))).
  - intros u. rewrite initialized_lookup. case_decide; [by eauto|].
    split; [by intros [? ?]|done].
  - intros u r. rewrite initialized_lookup. case_decide; [|done].
    intros [= <-]. split; [done|]. by intros [? ?].
  - intros u Hdown. exfalso. unfold upAt in Hdown.
    rewrite lookup_total_alt, initialized_lookup in Hdown. by case_decide.
  - intros k h u code latency checkedAt. by rewrite Ho.
  - intros e. rewrite Ho. by intros ?%elem_of_nil.
  - intros _. by rewrite Ho.
Qed.

Lemma sound_notice config w e :
  sound config w -> isNotice e = true -> sound config (exec (emit e) w).
Proof.
  intros (H1 & H2 & H3 & H4 & H5 & H6) He.
  refine (conj H1 (conj H2 (conj _ (conj _ (conj _ _))))).
  - intros u Hdown. destruct (H3 u Hdown) as (j & d & Hj & Hd).
    exists j, d. split; [|done]. by apply lookup_app_l_Some.
  - intros k h u code latency checkedAt Hk.
    apply lookup_app_Some in Hk as [Hk|[Hlen Hk]].
    + destruct (H4 _ _ _ _ _ _ Hk) as (j & d & Hlt & Hj & Hd).
      exists j, d. split_and!; [done|by apply lookup_app_l_Some|done].
    + apply list_elem_of_lookup_2, list_elem_of_singleton in Hk.
      by rewrite <- Hk in He.
  - intros e' [He'|He']%elem_of_app; [by apply H5|].
    apply list_elem_of_singleton in He' as ->. by destruct e.
  - intros Hoff. unfold exec, emit. simpl. rewrite countOf_app, H6 by done.
    by destruct e.
Qed.

Lemma flightSound_mono config w w' f :
  (forall j d, output w !! j = Some d -> output w' !! j = Some d) ->
  flightSound config w f -> flightSound config w' f.
Proof.
  intros Hold (Hu & p & Hp & Hagree & Hdown). split; [done|].
  exists p. refine (conj Hp (conj Hagree _)).
  intros Hwas. destruct (Hdown Hwas) as (j & d & Hj & Hd). eauto.
Qed.

(** A check that ends keeps all of it, whatever has happened since the
    check read its [previousStatus]. *)
Lemma sound_land config w f :
  sound config w -> flightSound config w f -> sound config (land config f w).
Proof.
  intros (H1 & H2 & H3 & H4 & H5 & H6) (Hu & p & Hp & Hagree & Hdown).
  rewrite (land_run config f p w Hp).
  destruct f as [env url prev start]. simpl in *. subst prev.
  set (cur := checkResult config env url p start).
  assert (forall e,
            e ∈ checkOutput config env url p start -> isPost e = true ->
            e ∈ notifications config (hook env) url p cur) as Hposts.
  { intros e He Hpost. unfold checkOutput in He.
    apply elem_of_app in He as [He|He];
      [apply requests_elem in He; congruence|].
    apply elem_of_app in He as [He|He];
      [apply checkLog_elem in He; congruence|done]. }
  refine (conj _ (conj _ (conj _ (conj _ (conj _ _))))).
  - intros u. simpl. rewrite lookup_insert_is_Some. split.
    + intros [<-|[_ Hs]]; [done|by apply H1].
    + intros Hin. destruct (decide (url = u)); [by left|right].
      split; [done|by apply H1].
  - intros u r. simpl. destruct (decide (url = u)) as [<-|Hne].
    + rewrite lookup_insert_eq. intros [= <-]. split.
      * apply classified_counterAgrees. by apply counterAgrees_nonneg.
      * intros _.
        by destruct (classified_shape config p start
                       (probeRun config (net env) url)) as (Ha & Hb & _).
    + rewrite lookup_insert_ne by done. apply H2.
  - intros u Hdn. unfold upAt in Hdn. simpl in *.
    destruct (decide (url = u)) as [<-|Hne].
    + rewrite lookup_total_insert_eq in Hdn.
      destruct (isUp p) eqn:Hwas.
      * assert (HttpPost (webhookUrl config) (downMessage url cur)
                ∈ output w ++ checkOutput config env url p start) as Hin.
        { apply elem_of_app. right. unfold checkOutput.
          rewrite !elem_of_app. right; right. by apply notifications_down. }
        apply list_elem_of_lookup in Hin as [k Hk]. exists k. eexists.
        split; [done|]. simpl. by apply bool_decide_eq_true.
      * destruct (Hdown eq_refl) as (j & d & Hj & Hd).
        exists j, d. split; [by apply lookup_app_l_Some|done].
    + rewrite lookup_total_insert_ne in Hdn by done.
      destruct (H3 u Hdn) as (j & d & Hj & Hd).
      exists j, d. split; [by apply lookup_app_l_Some|done].
  - intros k h u code latency checkedAt Hk. simpl in *.
    apply lookup_app_Some in Hk as [Hk|[Hlen Hk]].
    + destruct (H4 _ _ _ _ _ _ Hk) as (j & d & Hlt & Hj & Hd).
      exists j, d. split_and!; [done|by apply lookup_app_l_Some|done].
    + apply list_elem_of_lookup_2 in Hk. apply Hposts in Hk; [|done].
      apply notifications_post in Hk as [(Heq & _)|(Heq & Hwas & _)];
        [by unfold downMessage in Heq| |done].
      injection Heq as _ -> _ _ _.
      destruct (Hdown Hwas) as (j & d & Hj & Hd).
      exists j, d. split_and!; [|by apply lookup_app_l_Some|done].
      apply lookup_lt_Some in Hj. lia.
  - intros e [He|He]%elem_of_app; [by apply H5|].
    destruct (isPost e) eqn:Hpost; [|by destruct e].
    apply Hposts in He; [|done].
    apply (notifications_complete config (hook env) url p cur e Hu);
      [| | |exact He].
    + unfold counterAgrees in Hagree. intros Hup. by rewrite Hup in Hagree.
    + apply classified_down.
    + apply classified_up.
  - intros Hoff. simpl. rewrite countOf_app, H6 by done.
    unfold checkOutput. rewrite !countOf_app. unfold probeRun.
    rewrite requests_only, checkLog_only; try done; [|by intros []].
    unfold notifications. rewrite Hoff, andb_false_r, app_nil_r.
    by destruct (isUp _ && negb (isUp _)).
Qed.

Lemma takeOff_sound config c w :
  sound config w -> Forall (flightSound config w) (takeOff config c w).
Proof.
  intros (H1 & H2 & H3 & _). apply Forall_forall. intros f Hf.
  apply elem_of_lookup_imap in Hf as (i & url & -> & Hi).
  pose proof (list_elem_of_lookup_2 _ _ _ Hi) as Hu.
  destruct (proj2 (H1 url) Hu) as [p Hp].
  split; [done|]. exists p. simpl.
  refine (conj Hp (conj (proj1 (H2 url p Hp)) _)).
  intros Hwas. apply H3. unfold upAt.
  by rewrite (lookup_total_correct _ _ _ Hp).
Qed.

Lemma running_sound config w flights :
  running config w flights ->
  sound config w /\ Forall (flightSound config w) flights.
Proof.
  induction 1 as [t|w flights e Hr [IHw IHf] He|w flights c Hr [IHw IHf]
                  |w flights k f Hr [IHw IHf] Hk].
  - split; [apply sound_init|done].
  - split; [by apply sound_notice|].
    eapply Forall_impl; [exact IHf|]. intros f. apply flightSound_mono.
    intros j d Hj. by apply lookup_app_l_Some.
  - assert (forall j d, output w !! j = Some d ->
                        output (tick c w) !! j = Some d) as Hold.
    { intros j d Hj. by apply lookup_app_l_Some. }
    split.
    + unfold tick. apply sound_notice; [|done].
      by apply (sound_ext config w).
    + apply Forall_app. split.
      * eapply Forall_impl; [exact IHf|]. intros f.
        by apply flightSound_mono.
      * eapply Forall_impl; [by apply takeOff_sound|]. intros f.
        by apply flightSound_mono.
  - pose proof (proj1 (Forall_lookup _ _) IHf k f Hk) as Hf.
    split; [by apply sound_land|].
    apply Forall_delete. eapply Forall_impl; [exact IHf|].
    intros f'. apply flightSound_mono. intros j d Hj.
    destruct Hf as (_ & p & Hp & _). rewrite (land_run config f p w Hp).
    by apply lookup_app_l_Some.
Qed.

Lemma reach_init config t : reachable config (initialized config t).
Proof. exists []. apply run_init. Qed.

Lemma allSettled_cons {A} (start : Z) (p : M A) (rest : list (M A)) w :
  exec (allSettled start (p :: rest)) w
  = exec (allSettled start rest) (exec (settle start p) w).
Proof.
  unfold exec. simpl. unfold mbind, M_bind, bind, settle.
  destruct (p (setClock start w)) as [r w1]. simpl.
  by destruct (allSettled start rest _) as [[rs|e] w2].
Qed.

(** The checks of a cycle that runs alone end one after the other, in
    the order of the URLs. *)
Lemma running_allSettled config envs (s : gmap string StatusRecord) t0 urls :
  forall w flights,
  running config w
    (flights ++ imap (fun i url => mkFlight (envs i) url (s !! url) t0) urls) ->
  running config
    (exec (allSettled t0
             (imap (fun i url => checkAgainst config (envs i) url (s !! url))
                urls))
       w)
    flights.
Proof.
  revert envs. induction urls as [|u rest IH]; intros envs w flights Hr.
  - simpl in *. by rewrite app_nil_r in Hr.
  - simpl imap. rewrite allSettled_cons.
    apply (IH (fun i => envs (S i))). simpl in Hr.
    pose proof (run_land config _ _ (length flights) _ Hr
                  (list_lookup_middle _ _ _ _ eq_refl)) as Hl.
    rewrite delete_middle in Hl. exact Hl.
Qed.

Lemma performHealthCheck_exec config envs w :
  exists upCount downCount,
    exec (performHealthCheck config envs) w
    = exec (console (LogCompleted upCount downCount))
        (exec (allSettled (now w)
                 (checkPromises config envs (serverStatus w)))
           (exec (console (LogStarting (now w))) w)).
Proof.
  unfold exec, performHealthCheck, mbind, M_bind, bind, dateNow, console,
    emit. simpl.
  match goal with
  | |- context [allSettled ?t ?ps ?w0] =>
      destruct (allSettled_total t ps w0) as (rs & w' & -> & _)
  end.
  simpl. eauto.
Qed.

(** A cycle that runs alone is one of the runs: its checks take off and
    end with nothing in between. *)
Lemma cycle_running config w flights c :
  running config w flights -> running config (cycle config c w) flights.
Proof.
  intros Hr. unfold cycle.
  destruct (performHealthCheck_exec config (checks c)
              (setClock (startsAt c) w)) as (up & down & ->).
  apply run_notice; [|done]. unfold checkPromises.
  apply running_allSettled. exact (run_tick config w flights c Hr).
Qed.

Lemma reach_cycle config w c :
  reachable config w -> reachable config (cycle config c w).
Proof. intros [flights Hr]. exists flights. by apply cycle_running. Qed.

Lemma runCycles_running config cs w flights :
  running config w flights -> running config (runCycles config cs w) flights.
Proof.
  intros Hr. induction cs as [|c cs IH] using rev_ind; [done|].
  rewrite runCycles_snoc. by apply cycle_running.
Qed.

Lemma runCycles_reachable config cs t :
  reachable config (runCycles config cs (initialized config t)).
Proof. exists []. apply runCycles_running, run_init. Qed.

Lemma landAll_running config flights : forall w rest,
  running config w (flights ++ rest) ->
  running config (fold_left (fun w f => land config f w) flights w) rest.
Proof.
  induction flights as [|f fs IH]; intros w rest Hr; [done|].
  simpl. apply IH. exact (run_land config _ _ 0%nat f Hr eq_refl).
Qed.

Lemma overlap_running config c1 c2 w :
  running config w [] -> running config (overlap config c1 c2 w) [].
Proof.
  intros Hr. unfold overlap. apply landAll_running. rewrite app_nil_r.
  exact (run_tick config _ _ c2 (run_tick config w [] c1 Hr)).
Qed.

Lemma reachable_sound config w : reachable config w -> sound config w.
Proof.
  intros [flights Hr]. by destruct (running_sound config w flights Hr).
Qed.

Lemma reachable_covered config w : reachable config w -> covered config w.
Proof.
  intros Hr u Hu. by apply (proj1 (reachable_sound config w Hr)).
Qed.

Lemma reachable_lookup config w u :
  reachable config w ->
  is_Some (serverStatus w !! u) <-> u ∈ serverUrls config.
Proof. intros Hr. apply (proj1 (reachable_sound config w Hr)). Qed.

Lemma reachable_counterAgrees config w u r :
  reachable config w -> serverStatus w !! u = Some r -> counterAgrees r.
Proof.
  intros Hr Hu.
  by destruct (proj1 (proj2 (reachable_sound config w Hr)) u r Hu).
Qed.

Lemma reachable_shape config w u r :
  reachable config w -> serverStatus w !! u = Some r -> checkedShape r.
Proof.
  intros Hr Hu.
  by destruct (proj1 (proj2 (reachable_sound config w Hr)) u r Hu).
Qed.


Lemma reachable_complete config w e :
  reachable config w -> e ∈ output w -> completeAlert config e.
Proof. intros Hr. apply (reachable_sound config w Hr). Qed.

Lemma reachable_quiet config w :
  reachable config w -> sendRecoveryNotifications config = false ->
  countOf isRecovery (output w) = 0%nat.
Proof. intros Hr. apply (reachable_sound config w Hr). Qed.

(** ** One target across cycles that do not overlap *)

Lemma runOutput_nil config w : runOutput config [] w = [].
Proof. unfold runOutput. simpl. by rewrite drop_all. Qed.

Lemma runOutput_cons config c cs w :
  covered config w ->
  runOutput config (c :: cs) w
  = cycleOutput config c w ++ runOutput config cs (cycle config c w).
Proof.
  intros Hc. unfold runOutput at 1.
  change (runCycles config (c :: cs) w)
    with (runCycles config cs (cycle config c w)).
  rewrite (runCycles_output config cs (cycle config c w))
    by by apply cycle_covered.
  rewrite cycle_output by done. rewrite <- app_assoc.
  by rewrite drop_app_length.
Qed.

Section Steady.

Variable config : Config.

Hypothesis distinct : NoDup (serverUrls config).

(** While the answers of the target give the classification [b] the
    record already has, nothing is posted about it. *)
Lemma quiet_while_unchanged cs w i u b :
  covered config w -> serverUrls config !! i = Some u -> upAt u w = b ->
  Forall (fun c => healthy config (checks c i) = b) cs ->
  countOf (isDownAlertFor u) (runOutput config cs w) = 0%nat
  /\ countOf (isRecoveryFor u) (runOutput config cs w) = 0%nat
  /\ upAt u (runCycles config cs w) = b.
Proof.
  intros Hc Hi Hb. induction cs as [|c cs IH] using rev_ind; intros Hall.
  - by rewrite runOutput_nil.
  - apply Forall_app in Hall as [Hall Hlast].
    apply Forall_cons in Hlast as [Hlast _].
    destruct (IH Hall) as (Hd & Hr & Hup).
    assert (covered config (runCycles config cs w)) as Hc'
      by by apply runCycles_covered.
    rewrite runOutput_snoc, !countOf_app, Hd, Hr by done.
    destruct (cycle_notifications config distinct c _ i u Hc' Hi) as [-> ->].
    rewrite runCycles_snoc, (cycle_upAt config distinct c _ i u Hc' Hi).
    rewrite Hup, Hlast. by destruct b.
Qed.


(** With recovery notifications on, what has been posted about a target
    balances. *)
Lemma posts_balance cs t i u :
  sendRecoveryNotifications config = true ->
  serverUrls config !! i = Some u ->
  countOf (isDownAlertFor u)
    (output (runCycles config cs (initialized config t)))
  = (countOf (isRecoveryFor u)
       (output (runCycles config cs (initialized config t)))
     + (if upAt u (runCycles config cs (initialized config t))
        then 0 else 1))%nat.
Proof.
  intros Hon Hi. induction cs as [|c cs IH] using rev_ind.
  - simpl. rewrite initialized_output.
    assert (upAt u (initialized config t) = true) as ->; [|done].
    unfold upAt. rewrite (lookup_total_correct _ _ initialStatus); [done|].
    rewrite initialized_lookup, decide_True; [done|].
    by apply (list_elem_of_lookup_2 _ i).
  - assert (covered config (runCycles config cs (initialized config t)))
      as Hc by apply reachable_covered, runCycles_reachable.
    rewrite runCycles_snoc, cycle_output, !countOf_app by done.
    destruct (cycle_notifications config distinct c _ i u Hc Hi) as [-> ->].
    rewrite IH, Hon.
    destruct (upAt u (runCycles config cs (initialized config t))),
      (upAt u (cycle config c _)); simpl; lia.
Qed.

End Steady.

(** ** The counter of failures *)




(** ** Notifications and transitions *)

(** C2, as stated, fails, in three ways.  With recovery notifications
    switched off, a cycle in which the target goes from down to up sends
    nothing.  When the cron job calls a cycle while the checks of the
    first cycle are in flight, both cycles read the record that is up
    and both send a down alert: two alerts for a target that went down
    once.  And a URL that is configured twice gets two down alerts in
    the cycle in which it goes down. *)
Lemma transition_notifications_miscounted :
  (reachable quietConfig staysDownAfter
   /\ serverUrls quietConfig !! 1%nat = Some "https://bad.example"
   /\ upAt "https://bad.example" staysDownAfter = false
   /\ upAt "https://bad.example"
        (cycle quietConfig answersAgain staysDownAfter) = true
   /\ countOf (isRecoveryFor "https://bad.example")
        (cycleOutput quietConfig answersAgain staysDownAfter) = 0%nat)
  /\ (running exampleConfig
        (overlap exampleConfig firstCheck firstTick
           (initialized exampleConfig 0))
        []
      /\ upAt "https://bad.example" (initialized exampleConfig 0) = true
      /\ upAt "https://bad.example"
           (overlap exampleConfig firstCheck firstTick
              (initialized exampleConfig 0)) = false
      /\ countOf (isDownAlertFor "https://bad.example")
           (output (overlap exampleConfig firstCheck firstTick
                      (initialized exampleConfig 0))) = 2%nat)
  /\ (upAt "https://bad.example" (initialized twiceConfig 0) = true
      /\ upAt "https://bad.example"
           (cycle twiceConfig firstCheck (initialized twiceConfig 0)) = false
      /\ countOf (isDownAlertFor "https://bad.example")
           (cycleOutput twiceConfig firstCheck (initialized twiceConfig 0))
         = 2%nat).
Proof.
  refine (conj (conj _ _) (conj (conj _ _) _)).
  - apply reach_cycle, reach_init.
  - by vm_compute.
  - apply overlap_running, run_init.
  - by vm_compute.
  - by vm_compute.
Qed.

(** C2 (amended): a check sends a down alert exactly when the record it
    read at its start has [isUp = true] and the record it stores has
    [isUp = false], a recovery notification exactly when the record it
    read has [isUp = false], the record it stores has [isUp = true] and
    recovery notifications are enabled, and nothing else.  When the URLs
    are pairwise different and a cycle runs alone, the record a check
    reads is the stored record of its target: the cycle sends a down
    alert for a target exactly when the stored record is up and the new
    one is down, a recovery notification exactly when the stored record
    is down, the new one is up and recovery notifications are enabled,
    and nothing when the two agree; and when cycles run one after the
    other, a target that is not healthy through all of them gets one
    down alert, in the first. *)
Theorem notifications_follow_transitions config :
  (forall env url p w,
      serverStatus w !! url = Some p ->
      exists cur,
        serverStatus (exec (checkServerHealth config env url) w) !! url
        = Some cur
        /\ isUp cur = healthy config env
        /\ countOf (isDownAlertFor url) (checkOutputOf config env url w)
           = (if isUp p && negb (isUp cur) then 1 else 0)%nat
        /\ countOf (isRecoveryFor url) (checkOutputOf config env url w)
           = (if negb (isUp p) && isUp cur
                 && sendRecoveryNotifications config
              then 1 else 0)%nat
        /\ countOf isPost (checkOutputOf config env url w)
           = (countOf (isDownAlertFor url) (checkOutputOf config env url w)
              + countOf (isRecoveryFor url)
                  (checkOutputOf config env url w))%nat)
  /\ (NoDup (serverUrls config) ->
      forall w c i u,
        reachable config w ->
        serverUrls config !! i = Some u ->
        upAt u (cycle config c w) = healthy config (checks c i)
        /\ countOf (isDownAlertFor u) (cycleOutput config c w)
           = (if upAt u w && negb (upAt u (cycle config c w))
              then 1 else 0)%nat
        /\ countOf (isRecoveryFor u) (cycleOutput config c w)
           = (if negb (upAt u w) && upAt u (cycle config c w)
                 && sendRecoveryNotifications config
              then 1 else 0)%nat
        /\ (upAt u (cycle config c w) = upAt u w ->
            countOf (isDownAlertFor u) (cycleOutput config c w) = 0%nat
            /\ countOf (isRecoveryFor u) (cycleOutput config c w) = 0%nat)
        /\ (forall cs,
              upAt u w = true ->
              Forall (fun c' => healthy config (checks c' i) = false)
                (c :: cs) ->
              countOf (isDownAlertFor u) (cycleOutput config c w) = 1%nat
              /\ countOf (isDownAlertFor u) (runOutput config (c :: cs) w)
                 = 1%nat)).
Proof.
  split.
  - intros env url p w Hp.
    rewrite (checkOutputOf_run config env url p w Hp). unfold exec.
    rewrite (checkServerHealth_run config env url p w Hp). simpl.
    eexists. split; [apply lookup_insert_eq|].
    split; [apply checkResult_isUp|].
    rewrite posts_checkOutput_sum.
    rewrite downAlerts_checkOutput, recoveries_checkOutput.
    by rewrite bool_decide_eq_true_2.
  - intros Hnd w c i u Hr Hi.
    pose proof (reachable_covered config w Hr) as Hc.
    destruct (cycle_notifications config Hnd c w i u Hc Hi) as [Hd Hu].
    pose proof (cycle_upAt config Hnd c w i u Hc Hi) as Hup.
    refine (conj Hup (conj Hd (conj Hu (conj _ _)))).
    + intros Heq. rewrite Hd, Hu, Heq. by destruct (upAt u w).
    + intros cs Hwas Hall. apply Forall_cons in Hall as [Hfirst Hall].
      assert (countOf (isDownAlertFor u) (cycleOutput config c w) = 1%nat)
        as H1 by by rewrite Hd, Hwas, Hup, Hfirst.
      split; [done|].
      rewrite runOutput_cons, countOf_app, H1 by done.
      destruct (quiet_while_unchanged config Hnd cs (cycle config c w) i u
                  false) as (-> & _); try done.
      * by apply cycle_covered.
      * by rewrite Hup.
Qed.

Lemma notifications_follow_transitions_witness :
  countOf (isDownAlertFor "https://bad.example")
    (runOutput exampleConfig (firstCheck :: downTwice)
       (initialized exampleConfig 0))
  = 1%nat.
Proof.
  refine (proj2 (proj2 (proj2 (proj2 (proj2
            (proj2 (notifications_follow_transitions exampleConfig) _
               (initialized exampleConfig 0) firstCheck 1%nat
               "https://bad.example" _ _)))) downTwice _ _)).
  - compute_done.
  - apply reach_init.
  - reflexivity.
  - reflexivity.
  - repeat constructor.
Defined.

(** C5, as stated, fails: when the cycle of minute 3 is called while
    the checks of the cycle of minute 2 are in flight, both cycles read
    the record that is down, both are answered, and both send a recovery
    notification: two for one change from down to up.  And a URL that is
    configured twice gets two recovery notifications in the cycle in
    which it comes back. *)
Lemma recovery_sent_twice :
  (sendRecoveryNotifications slowConfig = true
   /\ running slowConfig wentDown []
   /\ running slowConfig (overlap slowConfig minuteTwo minuteThree wentDown)
        []
   /\ upAt "https://bad.example" wentDown = false
   /\ upAt "https://bad.example"
        (overlap slowConfig minuteTwo minuteThree wentDown) = true
   /\ countOf (isRecoveryFor "https://bad.example")
        (drop (length (output wentDown))
           (output (overlap slowConfig minuteTwo minuteThree wentDown)))
      = 2%nat)
  /\ (sendRecoveryNotifications twiceConfig = true
      /\ upAt "https://bad.example"
           (cycle twiceConfig firstCheck (initialized twiceConfig 0)) = false
      /\ upAt "https://bad.example"
           (cycle twiceConfig answersAgain
              (cycle twiceConfig firstCheck (initialized twiceConfig 0)))
         = true
      /\ countOf (isRecoveryFor "https://bad.example")
           (cycleOutput twiceConfig answersAgain
              (cycle twiceConfig firstCheck (initialized twiceConfig 0)))
         = 2%nat).
Proof.
  assert (running slowConfig wentDown []) as Hdown
    by apply cycle_running, run_init.
  refine (conj (conj _ (conj Hdown (conj _ _))) _).
  - done.
  - by apply overlap_running.
  - by vm_compute.
  - by vm_compute.
Qed.

(** C5 (amended): with recovery notifications enabled, a check sends
    one recovery notification when the record it read at its start is
    down and the target is healthy, and none otherwise; when the URLs
    are pairwise different and a cycle runs alone, the cycle sends one
    for a target whose stored record is down and that is healthy, and
    none otherwise, and when cycles run one after the other, a target
    that comes back and stays healthy gets one, in the cycle in which it
    comes back.  With recovery notifications disabled, no run ever sends
    a recovery notification. *)
Theorem recovery_once_or_suppressed config :
  (sendRecoveryNotifications config = true ->
   (forall env url p w,
       serverStatus w !! url = Some p ->
       countOf (isRecoveryFor url) (checkOutputOf config env url w)
       = (if negb (isUp p) && healthy config env then 1 else 0)%nat)
   /\ (NoDup (serverUrls config) ->
       forall w c i u,
         reachable config w ->
         serverUrls config !! i = Some u ->
         countOf (isRecoveryFor u) (cycleOutput config c w)
         = (if negb (upAt u w) && healthy config (checks c i)
            then 1 else 0)%nat
         /\ (forall cs,
               upAt u w = false ->
               Forall (fun c' => healthy config (checks c' i) = true)
                 (c :: cs) ->
               countOf (isRecoveryFor u) (runOutput config (c :: cs) w)
               = 1%nat)))
  /\ (sendRecoveryNotifications config = false ->
      forall w, reachable config w -> countOf isRecovery (output w) = 0%nat).
Proof.
  split.
  - intros Hon. split.
    + intros env url p w Hp.
      rewrite (checkOutputOf_run config env url p w Hp).
      rewrite recoveries_checkOutput, checkResult_isUp, Hon.
      by rewrite bool_decide_eq_true_2, andb_true_r.
    + intros Hnd w c i u Hr Hi.
      pose proof (reachable_covered config w Hr) as Hc.
      destruct (cycle_notifications config Hnd c w i u Hc Hi) as [_ Hu].
      pose proof (cycle_upAt config Hnd c w i u Hc Hi) as Hup.
      rewrite Hup, Hon, andb_true_r in Hu. split; [done|].
      intros cs Hwas Hall. apply Forall_cons in Hall as [Hfirst Hall].
      rewrite runOutput_cons, countOf_app, Hu, Hwas, Hfirst by done.
      destruct (quiet_while_unchanged config Hnd cs (cycle config c w) i u
                  true) as (_ & -> & _); try done.
      * by apply cycle_covered.
      * by rewrite Hup.
  - intros Hoff w Hr. by apply (reachable_quiet config).
Qed.

Lemma recovery_once_or_suppressed_witness :
  countOf (isRecoveryFor "https://bad.example")
    (cycleOutput exampleConfig answersAgain
       (cycle exampleConfig firstCheck (initialized exampleConfig 0)))
  = 1%nat.
Proof.
  refine (proj1 (proj2 (proj1 (recovery_once_or_suppressed exampleConfig)
                          eq_refl)
                   _ (cycle exampleConfig firstCheck
                        (initialized exampleConfig 0))
                   answersAgain 1%nat "https://bad.example" _ _)).
  - compute_done.
  - apply reach_cycle, reach_init.
  - reflexivity.
Defined.

(** ** [start] *)





Section Start.

Variable config : Config.
Variable parsesAsUrl : string -> bool.
Variable originOf : string -> string.
Variable cronRejects : string -> option string.
Variable envs : nat -> CheckEnv.
Variable t : Z.

Hypothesis valid : validateConfig config parsesAsUrl = [].




End Start.





(** ** The first check of a target *)






(** ** The summary of a cycle *)

Lemma filter_split_length {A} (P : A -> Prop) `{forall x, Decision (P x)}
    (l : list A) :
  (length (filter P l) + length (filter (fun x => ~ P x) l))%nat = length l.
Proof.
  induction l as [|x l IH]; [done|].
  rewrite !filter_cons. repeat case_decide; simpl; try lia; done.
Qed.


Example one_up_one_down :
  eval (performHealthCheck twoAttempts goodAndBad) (initialized twoAttempts 0)
  = Normal (1, 1)
  /\ List.filter isPost
       (output (exec (performHealthCheck twoAttempts goodAndBad)
                  (initialized twoAttempts 0)))
     = [HttpPost "https://open.larksuite.com/hook"
          (DownAlert "https://bad.example"
             "Request failed after 2 attempts: timeout of 10000ms exceeded"
             1 (Some 21000))].
Proof. by vm_compute. Qed.

(** Without an attempt the probe resolves to [undefined]; reading its
    [status] throws inside the [try], and the check records a failure. *)
Example probe_without_attempts :
  eval (makeHttpRequest noAttempts (net (answers 200 40))
          "https://good.example") (initialized noAttempts 0)
  = Normal None
  /\ eval (checkServerHealth noAttempts (answers 200 40)
             "https://good.example") (initialized noAttempts 0)
     = Normal (mkStatus false (Some 0) 1 None None (Val undefinedStatus)).
Proof. by vm_compute. Qed.

(** A URL without a record: a check that finds it up stores the record
    and then rejects in [handleStatusChange]; [performHealthCheck] never
    makes such a check, since [start] gives every URL a record. *)
Example check_of_unknown_url :
  eval (checkServerHealth exampleConfig (answers 200 40)
          "https://other.example") (initialized exampleConfig 0)
  = Thrown
      (mkError "Cannot read properties of undefined (reading 'isUp')")
  /\ isUp <$> serverStatus
               (exec (checkServerHealth exampleConfig (answers 200 40)
                        "https://other.example")
                  (initialized exampleConfig 0))
             !! "https://other.example"
     = Some true.
Proof. by vm_compute. Qed.



(** ** Delivery of notifications *)

Lemma exceptDeliveryLog_app evs1 evs2 :
  exceptDeliveryLog (evs1 ++ evs2)
  = exceptDeliveryLog evs1 ++ exceptDeliveryLog evs2.
Proof. apply List.filter_app. Qed.

Lemma exceptDeliveryLog_delivery config reply msg ty :
  exceptDeliveryLog (delivery config reply msg ty)
  = [HttpPost (webhookUrl config) msg].
Proof.
  unfold delivery, deliveryLog.
  destruct reply as [code|m]; [destruct (code =? 200)|]; done.
Qed.

Lemma exceptDeliveryLog_notifications config reply reply' v p cur :
  exceptDeliveryLog (notifications config reply v p cur)
  = exceptDeliveryLog (notifications config reply' v p cur).
Proof.
  unfold notifications. rewrite !exceptDeliveryLog_app.
  destruct (isUp p && negb (isUp cur)),
    (negb (isUp p) && isUp cur && sendRecoveryNotifications config);
    try done;
    change (?e :: delivery ?c ?r ?m ?t) with ([e] ++ delivery c r m t);
    by rewrite !exceptDeliveryLog_app, !exceptDeliveryLog_delivery.
Qed.

Lemma exceptDeliveryLog_concat_imap (chunk chunk' : nat -> string -> list Event)
    urls :
  (forall j v,
      urls !! j = Some v ->
      exceptDeliveryLog (chunk j v) = exceptDeliveryLog (chunk' j v)) ->
  exceptDeliveryLog (concat (imap chunk urls))
  = exceptDeliveryLog (concat (imap chunk' urls)).
Proof.
  revert chunk chunk'. induction urls as [|v rest IH]; intros chunk chunk' H;
    [done|].
  simpl. rewrite !exceptDeliveryLog_app, (H 0%nat v) by done. f_equal.
  apply (IH (chunk ∘ S) (chunk' ∘ S)). intros j y Hj. by apply (H (S j)).
Qed.

(** C8: sending a webhook message always resolves, whatever the webhook
    does: it makes one request, writes one line to the console and leaves
    the status map alone; and a cycle writes the same records, counts
    the same, and requests and posts the same, whatever the webhook
    answers. *)
Theorem delivery_failure_is_swallowed config :
  (forall reply msg ty w,
      eval (sendWebhookMessage config reply msg ty) w = Normal tt
      /\ serverStatus (exec (sendWebhookMessage config reply msg ty) w)
         = serverStatus w
      /\ exists line,
           output (exec (sendWebhookMessage config reply msg ty) w)
           = output w ++ [HttpPost (webhookUrl config) msg; Console line])
  /\ (forall reply url st w,
        eval (sendDownAlert config reply url st) w = Normal tt
        /\ eval (sendRecoveryAlert config reply url st) w = Normal tt)
  /\ (forall envs envs' w,
        covered config w ->
        (forall i, net (envs i) = net (envs' i)) ->
        eval (performHealthCheck config envs) w
        = eval (performHealthCheck config envs') w
        /\ serverStatus (exec (performHealthCheck config envs) w)
           = serverStatus (exec (performHealthCheck config envs') w)
        /\ exceptDeliveryLog
             (output (exec (performHealthCheck config envs) w))
           = exceptDeliveryLog
               (output (exec (performHealthCheck config envs') w))).
Proof.
  refine (conj _ (conj _ _)).
  - intros reply msg ty w. unfold eval, exec.
    rewrite sendWebhookMessage_run. simpl. unfold delivery. eauto.
  - intros reply url st w. unfold sendDownAlert, sendRecoveryAlert, eval.
    by rewrite !sendWebhookMessage_run.
  - intros envs envs' w Hc Hnet.
    destruct (performHealthCheck_run config envs w Hc) as [t Hrun].
    destruct (performHealthCheck_run config envs' w Hc) as [t' Hrun'].
    unfold eval, exec. rewrite Hrun, Hrun'. simpl.
    assert (forall s t0 i u,
              recordOf config envs s t0 i u = recordOf config envs' s t0 i u)
      as Hrec.
    { intros s t0 i u. unfold recordOf, checkResult. by rewrite Hnet. }
    assert (cycleResults config envs w = cycleResults config envs' w) as Hres.
    { unfold cycleResults. apply imap_ext. intros i u _. simpl.
      by rewrite Hrec. }
    refine (conj _ (conj _ _)).
    + by rewrite Hres.
    + unfold cycleWrites. f_equal. apply imap_ext. intros i u _. simpl.
      by rewrite Hrec.
    + rewrite !exceptDeliveryLog_app. f_equal. unfold cycleEvents.
      rewrite Hres.
      change (?e :: ?l ++ ?l') with ([e] ++ l ++ l').
      rewrite !exceptDeliveryLog_app. do 2 f_equal.
      apply exceptDeliveryLog_concat_imap. intros j v Hj.
      unfold outputOf, checkOutput. rewrite !exceptDeliveryLog_app.
      rewrite Hnet. do 2 f_equal.
      apply exceptDeliveryLog_notifications.
Qed.

Lemma delivery_failure_is_swallowed_witness :
  serverStatus (exec (performHealthCheck twoAttempts goodAndBad)
                  (initialized twoAttempts 0))
  = serverStatus (exec (performHealthCheck twoAttempts (hookDown goodAndBad))
                    (initialized twoAttempts 0)).
Proof.
  refine (proj1 (proj2 (proj2 (proj2 (delivery_failure_is_swallowed
                                        twoAttempts))
                          goodAndBad (hookDown goodAndBad)
                          (initialized twoAttempts 0) _ _))).
  - apply reachable_covered, reach_init.
  - reflexivity.
Defined.

(** ** The fields of a record *)

(** C9, as stated, fails: an answer with a status code that is not a
    success code gives a record that is down and carries the status code
    and the response time, with [error] [null]. *)
Lemma down_record_with_status_code :
  eval (checkServerHealth exampleConfig (answers 404 35)
          "https://good.example") (initialized exampleConfig 0)
  = Normal (mkStatus false (Some 35) 1 (Some 404) (Some 35) Null)
  /\ serverStatus
       (exec (checkServerHealth exampleConfig (answers 404 35)
                "https://good.example") (initialized exampleConfig 0))
     !! "https://good.example"
     = Some (mkStatus false (Some 35) 1 (Some 404) (Some 35) Null).
Proof. by vm_compute. Qed.

(** C9 (amended): a check stores [statusCode] and [responseTime], and
    [error = null], exactly when its probe was answered, whatever the
    status code; otherwise it stores a down record with the error and
    without the two.  So in every stored record of a completed check, a
    record with [isUp = true] has both and no error, and a record with
    an error is down and has neither. *)
Theorem record_fields_follow_the_probe config :
  (forall env url p w,
      serverStatus w !! url = Some p ->
      exists cur,
        eval (checkServerHealth config env url) w = Normal cur
        /\ serverStatus (exec (checkServerHealth config env url) w) !! url
           = Some cur
        /\ (forall resp,
              eval (makeHttpRequest config (net env) url) w
              = Normal (Some resp) ->
              statusCode cur = Some (status resp)
              /\ responseTime cur = Some (resp_responseTime resp)
              /\ error cur = Null)
        /\ ((forall resp,
                eval (makeHttpRequest config (net env) url) w
                <> Normal (Some resp)) ->
            failedShape cur))
  /\ (forall w u r,
        reachable config w ->
        serverStatus w !! u = Some r ->
        is_Some (lastCheck r) ->
        (isUp r = true -> answeredShape r)
        /\ (isPresent (error r) = true -> failedShape r)
        /\ (answeredShape r \/ failedShape r)).
Proof.
  split.
  - intros env url p w Hp. unfold checkServerHealth, eval, exec.
    unfold mbind, M_bind, bind, statusGet.
    rewrite Hp, checkAgainst_run, makeHttpRequest_run. simpl.
    eexists. split; [done|]. split; [apply lookup_insert_eq|].
    unfold checkResult, classified, failedShape.
    destruct (outcome (probeRun config (net env) url)) as [[code|]|e];
      simpl; split; try done.
    + by intros resp [= <-].
    + intros H. by destruct (H (mkResponse code
                                  (elapsed (probeRun config (net env) url)))).
  - intros w u r Hr Hu Hchecked.
    destruct (reachable_shape config w u r Hr Hu Hchecked) as [Hup Hor].
    split_and!; [done| |done].
    intros Herr. destruct Hor as [(_ & _ & Hnull)|Hf]; [|done].
    rewrite Hnull in Herr. done.
Qed.

Lemma record_fields_follow_the_probe_witness :
  exists cur,
    eval (checkServerHealth exampleConfig timesOut "https://bad.example")
      (initialized exampleConfig 0) = Normal cur
    /\ failedShape cur.
Proof.
  destruct (proj1 (record_fields_follow_the_probe exampleConfig) timesOut
              "https://bad.example" initialStatus
              (initialized exampleConfig 0))
    as (cur & Hcur & _ & _ & Hfailed).
  - vm_compute. reflexivity.
  - exists cur. split; [exact Hcur|].
    apply Hfailed. intros resp. vm_compute. discriminate.
Defined.

(** * More properties of the bot *)

(** ** The status map across runs *)

(** X1: in every run, the status map has a record for a URL exactly
    when the URL is one of [serverUrls]: a cycle neither adds nor drops a
    key. *)
Theorem status_map_keys_are_the_urls config w u :
  reachable config w ->
  is_Some (serverStatus w !! u) <-> u ∈ serverUrls config.
Proof. apply reachable_lookup. Qed.

Lemma status_map_keys_are_the_urls_witness :
  is_Some (serverStatus (runCycles exampleConfig downThenUp
                           (initialized exampleConfig 0))
           !! "https://bad.example")
  <-> "https://bad.example" ∈ serverUrls exampleConfig.
Proof.
  apply (status_map_keys_are_the_urls exampleConfig).
  apply runCycles_reachable.
Defined.

(** X2: in every run, a stored record is up exactly when its
    [consecutiveFailures] is 0, and a record that is down counts at
    least one failure. *)
Theorem up_iff_no_consecutive_failures config w u r :
  reachable config w ->
  serverStatus w !! u = Some r ->
  (isUp r = true <-> consecutiveFailures r = 0)
  /\ (isUp r = false <-> 1 <= consecutiveFailures r).
Proof.
  intros Hr Hu. pose proof (reachable_counterAgrees config w u r Hr Hu) as H.
  unfold counterAgrees in H. destruct (isUp r); split; split; try done; lia.
Qed.

Lemma up_iff_no_consecutive_failures_witness :
  isUp (mkStatus false (Some 120015) 2 (Some 503) (Some 15) Null) = false
  <-> 1 <= consecutiveFailures
             (mkStatus false (Some 120015) 2 (Some 503) (Some 15) Null).
Proof.
  refine (proj2 (up_iff_no_consecutive_failures exampleConfig
                   (runCycles exampleConfig downThenUp
                      (initialized exampleConfig 0))
                   "https://bad.example" _ _ _)).
  - apply runCycles_reachable.
  - vm_compute. reflexivity.
Defined.

(** ** What the posts carry *)

(** X3: every message a run posts goes to the webhook URL and is about
    a configured target; a down alert carries an error text, the time of
    the check and the count 1 (it is sent on the first failure only); a
    recovery notification is sent only with the switch on and carries a
    success status code, a response time and the time of the check. *)
Theorem posted_alerts_are_complete config w e :
  reachable config w -> e ∈ output w -> completeAlert config e.
Proof. apply reachable_complete. Qed.

Lemma posted_alerts_are_complete_witness :
  completeAlert exampleConfig
    (HttpPost "https://open.larksuite.com/hook"
       (DownAlert "https://bad.example"
          "Request failed after 3 attempts: timeout of 10000ms exceeded"
          1 (Some 93000))).
Proof.
  apply (posted_alerts_are_complete exampleConfig
           (runCycles exampleConfig downThenUp (initialized exampleConfig 0))).
  - apply runCycles_reachable.
  - by apply (list_elem_of_lookup_2 _ 21%nat).
Defined.

(** ** How many posts *)

Lemma countOf_concat_imap_le f (chunk : nat -> string -> list Event) urls :
  (forall j v, urls !! j = Some v -> (countOf f (chunk j v) <= 1)%nat) ->
  (countOf f (concat (imap chunk urls)) <= length urls)%nat.
Proof.
  revert chunk. induction urls as [|v rest IH]; intros chunk H; [done|].
  simpl. rewrite countOf_app.
  pose proof (H 0%nat v eq_refl) as H0.
  assert (countOf f (concat (imap (chunk ∘ S) rest)) <= length rest)%nat
    as Hrest.
  { apply IH. intros j y Hj. by apply (H (S j)). }
  lia.
Qed.

Lemma posts_checkOutput config env v p t0 :
  (countOf isPost (checkOutput config env v p t0) <= 1)%nat.
Proof.
  unfold checkOutput. rewrite !countOf_app. unfold probeRun.
  rewrite requests_only, checkLog_only; try done; [|by intros []].
  unfold notifications, delivery, countOf.
  destruct (isUp p), (isUp _), (sendRecoveryNotifications config);
    simpl; lia.
Qed.

(** X4: a check posts at most one message to the webhook, so a cycle
    posts at most as many messages as there are URLs. *)
Theorem at_most_one_post_per_url config :
  (forall env url p w,
      serverStatus w !! url = Some p ->
      (countOf isPost
         (drop (length (output w))
            (output (exec (checkServerHealth config env url) w)))
       <= 1)%nat)
  /\ (forall c w,
        covered config w ->
        (countOf isPost (cycleOutput config c w)
         <= length (serverUrls config))%nat).
Proof.
  split.
  - intros env url p w Hp. unfold checkServerHealth, exec.
    unfold mbind, M_bind, bind, statusGet. rewrite Hp, checkAgainst_run.
    simpl. rewrite drop_app_length. apply posts_checkOutput.
  - intros c w Hc. rewrite cycleOutput_run by done. unfold cycleEvents.
    change (?e :: ?l ++ ?l') with ([e] ++ l ++ l').
    rewrite !countOf_app.
    assert (countOf isPost
              (concat (imap (outputOf config (checks c)
                               (serverStatus (setClock (startsAt c) w))
                               (now (setClock (startsAt c) w)))
                         (serverUrls config)))
            <= length (serverUrls config))%nat as Hle.
    { apply countOf_concat_imap_le. intros j v _. apply posts_checkOutput. }
    unfold countOf in *. simpl in *. lia.
Qed.

Lemma at_most_one_post_per_url_witness :
  (countOf isPost
     (cycleOutput exampleConfig (mkCycle 0 (fun _ => timesOut))
        (initialized exampleConfig 0))
   <= length (serverUrls exampleConfig))%nat.
Proof.
  apply (proj2 (at_most_one_post_per_url exampleConfig)).
  apply reachable_covered, reach_init.
Defined.

(** X5: with recovery notifications on and pairwise different URLs, as
    long as the cycles run one after the other, the posts about a target
    balance: the number of down alerts for the target is the number of
    recovery notifications for it, plus one while the target is down.
    Cycles that overlap break the balance: two down alerts and no
    recovery notification for a target that is down. *)
Theorem alerts_and_recoveries_balance :
  (forall config cs t i u,
      NoDup (serverUrls config) ->
      sendRecoveryNotifications config = true ->
      serverUrls config !! i = Some u ->
      countOf (isDownAlertFor u)
        (output (runCycles config cs (initialized config t)))
      = (countOf (isRecoveryFor u)
           (output (runCycles config cs (initialized config t)))
         + (if upAt u (runCycles config cs (initialized config t))
            then 0 else 1))%nat)
  /\ (reachable exampleConfig
        (overlap exampleConfig firstCheck firstTick
           (initialized exampleConfig 0))
      /\ countOf (isDownAlertFor "https://bad.example")
           (output (overlap exampleConfig firstCheck firstTick
                      (initialized exampleConfig 0))) = 2%nat
      /\ countOf (isRecoveryFor "https://bad.example")
           (output (overlap exampleConfig firstCheck firstTick
                      (initialized exampleConfig 0))) = 0%nat).
Proof.
  split.
  - intros config cs t i u Hnd Hon Hi. by apply (posts_balance config Hnd cs t i u).
  - split; [|by vm_compute].
    exists []. apply overlap_running, run_init.
Qed.

Lemma alerts_and_recoveries_balance_witness :
  countOf (isDownAlertFor "https://bad.example")
    (output (runCycles exampleConfig recovers (initialized exampleConfig 0)))
  = (countOf (isRecoveryFor "https://bad.example")
       (output (runCycles exampleConfig recovers
                  (initialized exampleConfig 0)))
     + (if upAt "https://bad.example"
             (runCycles exampleConfig recovers (initialized exampleConfig 0))
        then 0 else 1))%nat.
Proof.
  refine (proj1 alerts_and_recoveries_balance exampleConfig recovers 0 1%nat
            "https://bad.example" _ _ _).
  - compute_done.
  - reflexivity.
  - reflexivity.
Defined.

(** ** The text of a failure *)

Lemma attemptRun_exhausted_message config net url (m : nat) :
  forall first msg t,
  Z.to_nat (retryAttempts config - first) = m ->
  first <= retryAttempts config ->
  (forall k, first <= k <= retryAttempts config -> fails net k) ->
  net (retryAttempts config) = TransportError msg t ->
  outcome (attemptRun config net url
             (seqZ first (retryAttempts config - first + 1)))
  = Thrown (mkError ("Request failed after "
                     +:+ pretty (retryAttempts config)
                     +:+ " attempts: " +:+ msg)).
Proof.
  induction m as [|m IH]; intros first msg t Hm Hn Hfail Hlast;
    destruct (Hfail first) as (msg' & t' & Hf); try lia;
    rewrite seqZ_cons by lia; simpl; rewrite Hf.
  - assert (first = retryAttempts config) as Heq by lia.
    rewrite Heq in Hf. rewrite Hf in Hlast. injection Hlast as -> ->.
    rewrite Heq, Z.eqb_refl. done.
  - assert ((first =? retryAttempts config) = false) as -> by lia.
    replace (Z.succ first) with (first + 1) by lia.
    replace (Z.pred (retryAttempts config - first + 1))
      with (retryAttempts config - (first + 1) + 1) by lia.
    simpl. apply (IH (first + 1) msg t); [lia|lia| |done].
    intros k Hk. apply Hfail. lia.
Qed.

Lemma probe_exhausted_message config net url msg t :
  1 <= retryAttempts config ->
  (forall k, 1 <= k <= retryAttempts config -> fails net k) ->
  net (retryAttempts config) = TransportError msg t ->
  outcome (probeRun config net url)
  = Thrown (mkError ("Request failed after "
                     +:+ pretty (retryAttempts config)
                     +:+ " attempts: " +:+ msg)).
Proof.
  intros Hn Hfail Hlast. unfold probeRun.
  pose proof (attemptRun_exhausted_message config net url
                (Z.to_nat (retryAttempts config - 1)) 1 msg t eq_refl Hn
                Hfail Hlast) as H.
  by replace (retryAttempts config - 1 + 1) with (retryAttempts config) in H
    by lia.
Qed.

(** X6: when every attempt of a probe fails, the probe throws
    "Request failed after N attempts: " followed by the message of the
    last attempt, and a target that was up gets a down alert with this
    text.  When the probe is answered with a status code that is not a
    success code, the down alert says "No response": the status code is
    not in the message. *)
Theorem down_alert_text config env url p w :
  serverStatus w !! url = Some p ->
  isUp p = true ->
  (forall msg t,
      1 <= retryAttempts config ->
      (forall k, 1 <= k <= retryAttempts config -> fails (net env) k) ->
      net env (retryAttempts config) = TransportError msg t ->
      let text := "Request failed after " +:+ pretty (retryAttempts config)
                  +:+ " attempts: " +:+ msg in
      eval (makeHttpRequest config (net env) url) w = Thrown (mkError text)
      /\ HttpPost (webhookUrl config)
           (DownAlert url text (consecutiveFailures p + 1)
              (Some (now (exec (makeHttpRequest config (net env) url) w))))
         ∈ output (exec (checkServerHealth config env url) w))
  /\ (forall n code t,
        1 <= n <= retryAttempts config ->
        (forall k, 1 <= k < n -> fails (net env) k) ->
        net env n = Responded code t ->
        code ∉ successStatusCodes config ->
        HttpPost (webhookUrl config)
          (DownAlert url "No response" (consecutiveFailures p + 1)
             (Some (now (exec (makeHttpRequest config (net env) url) w))))
        ∈ output (exec (checkServerHealth config env url) w)).
Proof.
  intros Hp Hup. unfold checkServerHealth, eval, exec.
  unfold mbind, M_bind, bind, statusGet.
  rewrite Hp, checkAgainst_run, makeHttpRequest_run. simpl.
  unfold checkOutput. split.
  - intros msg t Hn Hfail Hlast.
    pose proof (probe_exhausted_message config (net env) url msg t Hn Hfail
                  Hlast) as Ho.
    rewrite Ho. split; [done|]. rewrite !elem_of_app. do 3 right.
    pose proof (notifications_down config (hook env) url p
                  (classified config p (now w)
                     (probeRun config (net env) url)) Hup) as Hin.
    unfold classified in Hin |- *. rewrite Ho in Hin |- *. simpl in Hin.
    specialize (Hin eq_refl). unfold downMessage in Hin. simpl in Hin.
    exact Hin.
  - intros n code t Hn Hfail Hnet Hnot.
    destruct (probe_answered config (net env) url n code t Hn Hfail Hnet)
      as (Ho & _ & _).
    rewrite !elem_of_app. do 3 right.
    pose proof (notifications_down config (hook env) url p
                  (classified config p (now w)
                     (probeRun config (net env) url)) Hup) as Hin.
    unfold classified in Hin |- *. rewrite Ho in Hin |- *. simpl in Hin.
    assert (includes (successStatusCodes config) code = false) as Hinc.
    { apply not_true_is_false. by rewrite includes_spec. }
    rewrite Hinc in Hin |- *. by specialize (Hin eq_refl).
Qed.

Lemma down_alert_text_witness :
  HttpPost (webhookUrl exampleConfig)
    (DownAlert "https://good.example" "No response"
       (consecutiveFailures initialStatus + 1)
       (Some (now (exec (makeHttpRequest exampleConfig (net (answers 500 35))
                           "https://good.example")
                     (initialized exampleConfig 0)))))
  ∈ output (exec (checkServerHealth exampleConfig (answers 500 35)
                    "https://good.example") (initialized exampleConfig 0)).
Proof.
  refine (proj2 (down_alert_text exampleConfig (answers 500 35)
                   "https://good.example" initialStatus
                   (initialized exampleConfig 0) _ _) 1 500 35 _ _ _ _).
  - vm_compute. reflexivity.
  - reflexivity.
  - vm_compute. split; discriminate.
  - intros k Hk. lia.
  - reflexivity.
  - vm_compute. intros H.
    repeat (apply elem_of_cons in H as [H|H]; [discriminate|]).
    by apply elem_of_nil in H.
Defined.

(** ** Edges of the probe and of the check *)

(** X7: with [retryAttempts] below 1 (a negative [RETRY_ATTEMPTS]) a
    probe makes no request and resolves to [undefined] at once; the
    check then fails on reading [status], and records the target as down
    with that error, whatever the server would have answered. *)
Theorem no_attempt_means_down config env url p w :
  retryAttempts config < 1 ->
  serverStatus w !! url = Some p ->
  makeHttpRequest config (net env) url w = (Normal None, w)
  /\ eval (checkServerHealth config env url) w
     = Normal (mkStatus false (Some (now w)) (consecutiveFailures p + 1)
                 None None (Val undefinedStatus))
  /\ countOf isRequest (output (exec (checkServerHealth config env url) w))
     = countOf isRequest (output w).
Proof.
  intros Hn Hp.
  assert (probeRun config (net env) url = mkRun (Normal None) 0 []) as Hrun.
  { unfold probeRun. by rewrite seqZ_nil by lia. }
  split_and!.
  - rewrite makeHttpRequest_run, Hrun. simpl. destruct w; simpl.
    f_equal. apply world_eq; [lia|done|by rewrite app_nil_r].
  - unfold checkServerHealth, eval. unfold mbind, M_bind, bind, statusGet.
    rewrite Hp, checkAgainst_run. simpl.
    unfold checkResult, classified. rewrite Hrun. simpl.
    do 3 f_equal. lia.
  - unfold checkServerHealth, exec. unfold mbind, M_bind, bind, statusGet.
    rewrite Hp, checkAgainst_run. simpl. rewrite countOf_app.
    unfold checkOutput. rewrite Hrun. simpl.
    unfold checkLog, notifications, delivery, countOf. simpl.
    destruct (isUp p); simpl; lia.
Qed.

Lemma no_attempt_means_down_witness :
  eval (checkServerHealth noAttempts (answers 200 40) "https://good.example")
    (initialized noAttempts 0)
  = Normal (mkStatus false (Some (now (initialized noAttempts 0)))
              (consecutiveFailures initialStatus + 1) None None
              (Val undefinedStatus)).
Proof.
  refine (proj1 (proj2 (no_attempt_means_down noAttempts (answers 200 40)
                          "https://good.example" initialStatus
                          (initialized noAttempts 0) _ _))).
  - vm_compute. reflexivity.
  - vm_compute. reflexivity.
Defined.

Lemma attemptRun_duration config net url (m : nat) : forall first,
  Z.to_nat (retryAttempts config - first) = m ->
  1 <= first <= retryAttempts config ->
  (forall k, first <= k <= retryAttempts config ->
             0 <= took (net k) <= requestTimeout config) ->
  0 <= elapsed (attemptRun config net url
                  (seqZ first (retryAttempts config - first + 1)))
    <= (retryAttempts config - first + 1) * requestTimeout config
       + sumZ (fun k => Z.max 0 (retryDelay config * k))
           (seqZ first (retryAttempts config - first)).
Proof.
  induction m as [|m IH]; intros first Hm Hn Hto;
    pose proof (Hto first) as H1;
    rewrite seqZ_cons by lia; simpl.
  - assert (first = retryAttempts config) as Heq by lia.
    replace (retryAttempts config - first) with 0 by lia.
    rewrite seqZ_nil by lia. simpl.
    destruct (net first) as [code t|msg t]; simpl in *.
    + lia.
    + rewrite Heq, Z.eqb_refl. simpl. lia.
  - rewrite (seqZ_cons first (retryAttempts config - first)) by lia. simpl.
    replace (Z.succ first) with (first + 1) by lia.
    replace (Z.pred (retryAttempts config - first + 1))
      with (retryAttempts config - (first + 1) + 1) by lia.
    replace (Z.pred (retryAttempts config - first))
      with (retryAttempts config - (first + 1)) by lia.
    specialize (IH (first + 1)).
    assert (0 <= sumZ (fun k => Z.max 0 (retryDelay config * k))
                   (seqZ (first + 1) (retryAttempts config - (first + 1))))
      as Hs.
    { generalize (seqZ (first + 1) (retryAttempts config - (first + 1))).
      intros l. induction l as [|x l IHl]; simpl; [done|].
      unfold sumZ in *. lia. }
    destruct (net first) as [code t|msg t]; simpl in *.
    + nia.
    + assert ((first =? retryAttempts config) = false) as -> by lia.
      simpl. unfold sumZ in *.
      assert (0 <= elapsed
                     (attemptRun config net url
                        (seqZ (first + 1)
                           (retryAttempts config - (first + 1) + 1)))
              <= (retryAttempts config - (first + 1) + 1)
                 * requestTimeout config
                 + foldr (fun k acc => Z.max 0 (retryDelay config * k) + acc)
                     0 (seqZ (first + 1)
                          (retryAttempts config - (first + 1)))) as Hih.
      { apply IH; [lia|lia|]. intros k Hk. apply Hto. lia. }
      nia.
Qed.

(** X8: when every attempt takes between 0 and [requestTimeout]
    milliseconds, a probe takes at most [retryAttempts * requestTimeout]
    plus the delays between the attempts, whether it ends answered or
    failed. *)
Theorem probe_duration_is_bounded config net url w :
  1 <= retryAttempts config ->
  (forall k, 1 <= k <= retryAttempts config ->
             0 <= took (net k) <= requestTimeout config) ->
  0 <= now (exec (makeHttpRequest config net url) w) - now w
    <= retryAttempts config * requestTimeout config
       + sumZ (fun k => Z.max 0 (retryDelay config * k))
           (seqZ 1 (retryAttempts config - 1)).
Proof.
  intros Hn Hto. unfold exec. rewrite makeHttpRequest_run. simpl.
  pose proof (attemptRun_duration config net url
                (Z.to_nat (retryAttempts config - 1)) 1 eq_refl
                (conj (Z.le_refl 1) Hn) Hto) as H.
  replace (retryAttempts config - 1 + 1) with (retryAttempts config) in H
    by lia.
  unfold probeRun. lia.
Qed.

Lemma probe_duration_is_bounded_witness :
  0 <= now (exec (makeHttpRequest exampleConfig (net timesOut)
                    "https://bad.example") (boot 0)) - now (boot 0)
    <= retryAttempts exampleConfig * requestTimeout exampleConfig
       + sumZ (fun k => Z.max 0 (retryDelay exampleConfig * k))
           (seqZ 1 (retryAttempts exampleConfig - 1)).
Proof.
  apply (probe_duration_is_bounded exampleConfig (net timesOut)
           "https://bad.example" (boot 0)).
  - vm_compute. discriminate.
  - intros k Hk. vm_compute. split; discriminate.
Defined.

(** X9: a check of a URL that has no record in the status map always
    rejects and posts nothing.  If its probe is answered with a success
    code, the check has stored a record that is up before it rejects;
    in every other case it leaves the map as it is. *)
Theorem check_without_record_rejects config env url w :
  serverStatus w !! url = None ->
  (exists e, eval (checkServerHealth config env url) w = Thrown e)
  /\ countOf isPost (output (exec (checkServerHealth config env url) w))
     = countOf isPost (output w)
  /\ (forall resp,
        eval (makeHttpRequest config (net env) url) w = Normal (Some resp) ->
        status resp ∈ successStatusCodes config ->
        serverStatus (exec (checkServerHealth config env url) w)
        = <[url := mkStatus true
                     (Some (now (exec (makeHttpRequest config (net env) url)
                                   w)))
                     0 (Some (status resp)) (Some (resp_responseTime resp))
                     Null]> (serverStatus w))
  /\ ((forall resp,
         eval (makeHttpRequest config (net env) url) w = Normal (Some resp) ->
         status resp ∉ successStatusCodes config) ->
      serverStatus (exec (checkServerHealth config env url) w)
      = serverStatus w).
Proof.
  intros Hnone. unfold checkServerHealth, eval, exec.
  unfold mbind, M_bind, bind, statusGet. rewrite Hnone.
  unfold checkAgainst, mbind, M_bind, bind, tryCatch.
  rewrite makeHttpRequest_run. simpl.
  pose proof (requests_only config isPost (net env) url
                (seqZ 1 (retryAttempts config))) as Hreq.
  fold (probeRun config (net env) url) in Hreq.
  destruct (outcome (probeRun config (net env) url)) as [[code|]|e]; simpl.
  - destruct (includes (successStatusCodes config) code) eqn:Hinc; simpl.
    + destruct (enableVerboseLogging config); simpl;
        (split_and!; [eauto| |by intros resp [= <-] _|]);
        rewrite ?countOf_app, ?Hreq; try (by intros []);
        try (unfold countOf; simpl; lia);
        intros H; exfalso; apply (H (mkResponse code _) eq_refl);
        by apply includes_spec.
    + split_and!; [eauto| |..].
      * rewrite !countOf_app, Hreq by (by intros []).
        unfold countOf; simpl; lia.
      * intros resp [= <-] Hin%includes_spec. simpl in Hin. congruence.
      * done.
  - split_and!; [eauto| |done|done].
    rewrite !countOf_app, Hreq by (by intros []).
    unfold countOf; simpl; lia.
  - split_and!; [eauto| |done|done].
    rewrite !countOf_app, Hreq by (by intros []).
    unfold countOf; simpl; lia.
Qed.

Lemma check_without_record_rejects_witness :
  exists e,
    eval (checkServerHealth exampleConfig (answers 200 40)
            "https://other.example") (initialized exampleConfig 0)
    = Thrown e.
Proof.
  refine (proj1 (check_without_record_rejects exampleConfig (answers 200 40)
                   "https://other.example" (initialized exampleConfig 0) _)).
  vm_compute. reflexivity.
Defined.

(** ** Validation and start *)

Lemma omap_imap_nil {A B} (f : nat -> A -> option B) (l : list A) :
  omap id (imap f l) = [] <-> forall i x, l !! i = Some x -> f i x = None.
Proof.
  revert f. induction l as [|y l IH]; intros f; simpl.
  - split; [by intros _ i x ?|done].
  - destruct (f 0%nat y) as [b|] eqn:Hy; simpl.
    + split; [done|]. intros H. specialize (H 0%nat y eq_refl). congruence.
    + rewrite (IH (f ∘ S)). split.
      * intros H [|i] x Hi; [by injection Hi as <-|]. by apply (H i).
      * intros H i x Hi. by apply (H (S i)).
Qed.

(** X10: [validateConfig] reports no error exactly when the webhook URL
    is set, there is at least one server URL and every server URL parses;
    and every server URL that does not parse is reported with its index. *)
Theorem validateConfig_accepts_iff config parsesAsUrl :
  (validateConfig config parsesAsUrl = [] <->
   webhookUrl config <> "" /\ serverUrls config <> []
   /\ Forall (fun url => parsesAsUrl url = true) (serverUrls config))
  /\ (forall (index : nat) url,
        serverUrls config !! index = Some url ->
        parsesAsUrl url = false ->
        "Invalid URL at index " +:+ pretty index +:+ ": " +:+ url
        ∈ validateConfig config parsesAsUrl).
Proof.
  unfold validateConfig. split.
  - rewrite !app_nil, omap_imap_nil, Forall_lookup. split.
    + intros (Hw & Hu & Hp). split_and!.
      * by destruct (decide (webhookUrl config = "")).
      * by destruct (decide (serverUrls config = [])).
      * intros i url Hi. specialize (Hp i url Hi).
        by destruct (parsesAsUrl url).
    + intros (Hw & Hu & Hp). split_and!.
      * by rewrite decide_False.
      * by rewrite decide_False.
      * intros i url Hi. by rewrite (Hp i url Hi).
  - intros index url Hi Hbad. rewrite !elem_of_app. do 2 right.
    apply list_elem_of_omap. eexists (Some _). split; [|done].
    apply elem_of_lookup_imap. exists index, url. by rewrite Hbad.
Qed.

Lemma validateConfig_accepts_iff_witness :
  "Invalid URL at index " +:+ pretty 1%nat +:+ ": " +:+ "https://bad.example"
  ∈ validateConfig exampleConfig
      (fun url => bool_decide (url = "https://good.example")).
Proof.
  refine (proj2 (validateConfig_accepts_iff exampleConfig
                   (fun url => bool_decide (url = "https://good.example")))
            1%nat "https://bad.example" _ _).
  - reflexivity.
  - reflexivity.
Defined.




(** ** [getStatusSummary] *)

Lemma summarize_fold (l : list (string * StatusRecord)) s :
  fold_left summarize l s
  = mkSummary (totalServers s)
      (upServers s
       + Z.of_nat (length (filter (fun kv => isUp kv.2 = true) l)))
      (downServers s
       + Z.of_nat (length (filter (fun kv => isUp kv.2 <> true) l)))
      (servers s ++ (entryOf <$> l)).
Proof.
  revert s. induction l as [|kv l IH]; intros s; simpl.
  - destruct s; simpl. f_equal; [lia|lia|by rewrite app_nil_r].
  - rewrite IH. unfold summarize. simpl. rewrite !filter_cons.
    destruct (isUp kv.2) eqn:Hup; repeat case_decide; try congruence;
      simpl; f_equal; try lia.
    all: rewrite <- app_assoc; simpl; unfold entryOf; by rewrite Hup.
Qed.

Lemma length_remove_dups_le (l : list string) :
  (length (remove_dups l) <= length l)%nat.
Proof.
  induction l as [|x l IH]; simpl; [done|]. case_decide; simpl; lia.
Qed.

Lemma length_remove_dups_eq (l : list string) :
  length (remove_dups l) = length l <-> NoDup l.
Proof.
  induction l as [|x l IH]; simpl.
  - split; [constructor|done].
  - pose proof (length_remove_dups_le l) as Hle.
    rewrite NoDup_cons. case_decide as Hx; simpl.
    + split; [lia|]. by intros [? _].
    + split.
      * intros H. split; [done|]. apply IH. lia.
      * intros [_ H]. apply IH in H. lia.
Qed.

Lemma reachable_size config w :
  reachable config w ->
  size (serverStatus w) = length (remove_dups (serverUrls config)).
Proof.
  intros Hr. rewrite <- length_map_to_list.
  rewrite <- (length_fmap fst).
  apply Permutation_length, NoDup_Permutation.
  - apply NoDup_fst_map_to_list.
  - apply NoDup_remove_dups.
  - intros u. rewrite elem_of_remove_dups.
    rewrite <- (reachable_lookup config w u Hr).
    rewrite list_elem_of_fmap. split.
    + intros ([k r] & -> & Hin%elem_of_map_to_list). simpl. eauto.
    + intros [r Hu]. exists (u, r). split; [done|].
      by apply elem_of_map_to_list.
Qed.

(** X12: the summary counts every record of the map once, as up or as
    down, and lists it once in [servers]; in a run, [upServers +
    downServers] is the number of different configured URLs, so it
    equals [totalServers] exactly when no URL is configured twice. *)
Theorem summary_counts_every_record_once config w :
  upServers (getStatusSummary config w)
  + downServers (getStatusSummary config w)
  = Z.of_nat (size (serverStatus w))
  /\ length (servers (getStatusSummary config w)) = size (serverStatus w)
  /\ (forall entry,
        entry ∈ servers (getStatusSummary config w) <->
        exists r,
          serverStatus w !! entry_url entry = Some r
          /\ entry = entryOf (entry_url entry, r))
  /\ (reachable config w ->
      upServers (getStatusSummary config w)
      + downServers (getStatusSummary config w)
      = Z.of_nat (length (remove_dups (serverUrls config)))
      /\ (upServers (getStatusSummary config w)
          + downServers (getStatusSummary config w)
          = totalServers (getStatusSummary config w)
          <-> NoDup (serverUrls config))).
Proof.
  unfold getStatusSummary. rewrite summarize_fold. simpl.
  pose proof (filter_split_length (fun kv : string * StatusRecord =>
                                     isUp kv.2 = true)
                (map_to_list (serverStatus w))) as Hsplit.
  rewrite length_map_to_list in Hsplit.
  assert (Z.of_nat (length (filter (fun kv : string * StatusRecord =>
                                      isUp kv.2 = true)
                              (map_to_list (serverStatus w))))
          + Z.of_nat (length (filter (fun kv : string * StatusRecord =>
                                        isUp kv.2 <> true)
                                (map_to_list (serverStatus w))))
          = Z.of_nat (size (serverStatus w))) as Hsum by lia.
  split_and!.
  - exact Hsum.
  - by rewrite length_fmap, length_map_to_list.
  - intros entry. rewrite list_elem_of_fmap. split.
    + intros ([k r] & -> & Hin%elem_of_map_to_list). simpl. eauto.
    + intros (r & Hr & ->). exists (entry_url entry, r). split; [done|].
      by apply elem_of_map_to_list.
  - intros Hr. pose proof (reachable_size config w Hr) as Hsize.
    split; [lia|]. rewrite <- length_remove_dups_eq. lia.
Qed.

Lemma summary_counts_every_record_once_witness :
  upServers (getStatusSummary exampleConfig
               (runCycles exampleConfig downThenUp
                  (initialized exampleConfig 0)))
  + downServers (getStatusSummary exampleConfig
                   (runCycles exampleConfig downThenUp
                      (initialized exampleConfig 0)))
  = Z.of_nat (length (remove_dups (serverUrls exampleConfig))).
Proof.
  refine (proj1 (proj2 (proj2 (proj2
            (summary_counts_every_record_once exampleConfig
               (runCycles exampleConfig downThenUp
                  (initialized exampleConfig 0))))) _)).
  apply runCycles_reachable.
Defined.





(** ** The two switches *)

Lemma attemptRun_withSwitches config verbose recovery net url attempts :
  attemptRun (withSwitches config verbose recovery) net url attempts
  = attemptRun config net url attempts.
Proof.
  induction attempts as [|a rest IH]; simpl; [done|]. by rewrite IH.
Qed.

Lemma checkResult_withSwitches config verbose recovery env url p t0 :
  checkResult (withSwitches config verbose recovery) env url p t0
  = checkResult config env url p t0.
Proof.
  unfold checkResult, probeRun, classified. simpl.
  by rewrite attemptRun_withSwitches.
Qed.

Lemma filter_concat_imap_ext (f : Event -> bool)
    (chunk chunk' : nat -> string -> list Event) urls :
  (forall j v, urls !! j = Some v ->
               List.filter f (chunk j v) = List.filter f (chunk' j v)) ->
  List.filter f (concat (imap chunk urls))
  = List.filter f (concat (imap chunk' urls)).
Proof.
  revert chunk chunk'. induction urls as [|v rest IH]; intros chunk chunk' H;
    [done|].
  simpl. rewrite !List.filter_app, (H 0%nat v) by done. f_equal.
  apply (IH (chunk ∘ S) (chunk' ∘ S)). intros j y Hj. by apply (H (S j)).
Qed.

Lemma checkOutput_withSwitches config verbose recovery env url p t0 :
  List.filter isProbeOrDownAlert
    (checkOutput (withSwitches config verbose recovery) env url p t0)
  = List.filter isProbeOrDownAlert (checkOutput config env url p t0).
Proof.
  unfold checkOutput, probeRun. simpl. rewrite attemptRun_withSwitches.
  rewrite !List.filter_app. f_equal.
  fold (probeRun config (net env) url).
  assert (classified (withSwitches config verbose recovery) p t0
            (probeRun config (net env) url)
          = classified config p t0 (probeRun config (net env) url)) as ->
    by done.
  f_equal.
  - unfold checkLog. simpl.
    destruct (outcome (probeRun config (net env) url)) as [[code|]|e];
      try done.
    by destruct verbose, (enableVerboseLogging config).
  - unfold notifications, delivery. simpl.
    rewrite !List.filter_app. f_equal.
    destruct (negb (isUp p) && isUp _); simpl;
      by destruct recovery, (sendRecoveryNotifications config).
Qed.

(** X14: the switches for verbose logging and for recovery
    notifications change neither the records a cycle writes nor its
    counters, nor the requests of its probes and the down alerts it
    posts. *)
Theorem switches_do_not_change_monitoring config verbose recovery envs w :
  covered config w ->
  eval (performHealthCheck (withSwitches config verbose recovery) envs) w
  = eval (performHealthCheck config envs) w
  /\ serverStatus
       (exec (performHealthCheck (withSwitches config verbose recovery) envs)
          w)
     = serverStatus (exec (performHealthCheck config envs) w)
  /\ List.filter isProbeOrDownAlert
       (output
          (exec (performHealthCheck (withSwitches config verbose recovery)
                   envs) w))
     = List.filter isProbeOrDownAlert
         (output (exec (performHealthCheck config envs) w)).
Proof.
  intros Hc.
  assert (covered (withSwitches config verbose recovery) w) as Hc' by done.
  destruct (performHealthCheck_run config envs w Hc) as [t Hrun].
  destruct (performHealthCheck_run _ envs w Hc') as [t' Hrun'].
  unfold eval, exec. rewrite Hrun, Hrun'. simpl.
  assert (cycleResults (withSwitches config verbose recovery) envs w
          = cycleResults config envs w) as Hres.
  { unfold cycleResults. simpl. apply imap_ext. intros i u _. simpl.
    unfold recordOf. by rewrite checkResult_withSwitches. }
  split_and!.
  - by rewrite Hres.
  - unfold cycleWrites. simpl. f_equal.
  - rewrite !List.filter_app. f_equal. unfold cycleEvents. rewrite Hres.
    change (?e :: ?l ++ ?l') with ([e] ++ l ++ l').
    rewrite !List.filter_app. do 2 f_equal. simpl.
    apply filter_concat_imap_ext. intros j v _. unfold outputOf.
    apply checkOutput_withSwitches.
Qed.

Lemma switches_do_not_change_monitoring_witness :
  serverStatus
    (exec (performHealthCheck (withSwitches exampleConfig true false)
             goodAndBad) (initialized exampleConfig 0))
  = serverStatus (exec (performHealthCheck exampleConfig goodAndBad)
                    (initialized exampleConfig 0)).
Proof.
  refine (proj1 (proj2 (switches_do_not_change_monitoring exampleConfig true
                          false goodAndBad (initialized exampleConfig 0) _))).
  apply reachable_covered, reach_init.
Defined.

(** ** The settings *)

(** X15: a numeric setting that does not parse or that parses to 0 gets
    its default, every other number is taken as it is (also a negative
    one); so no environment gives 0 attempts, a delay of 0 or a timeout
    of 0. *)
Theorem numeric_settings_are_never_zero interval timeout attempts delay
    webhook urls codes verboseIsTrue recoveryIsFalse :
  let config := loadConfig interval timeout attempts delay webhook urls codes
                  verboseIsTrue recoveryIsFalse in
  (requestTimeout config <> 0 /\ retryAttempts config <> 0
   /\ retryDelay config <> 0)
  /\ (timeout = None \/ timeout = Some 0 -> requestTimeout config = 10000)
  /\ (attempts = None \/ attempts = Some 0 -> retryAttempts config = 3)
  /\ (delay = None \/ delay = Some 0 -> retryDelay config = 1000)
  /\ (forall n, n <> 0 ->
        (timeout = Some n -> requestTimeout config = n)
        /\ (attempts = Some n -> retryAttempts config = n)
        /\ (delay = Some n -> retryDelay config = n)).
Proof.
  simpl. unfold parsedOr.
  refine (conj _ (conj _ (conj _ (conj _ _)))).
  - destruct timeout as [n|], attempts as [n'|], delay as [n''|];
      repeat match goal with
        | |- context [?x =? 0] => destruct (Z.eqb_spec x 0)
        end; split_and!; done.
  - by intros [->| ->].
  - by intros [->| ->].
  - by intros [->| ->].
  - intros n Hn. split_and!; intros ->;
      by destruct (Z.eqb_spec n 0).
Qed.

Lemma numeric_settings_are_never_zero_witness :
  retryDelay (loadConfig None None None (Some 0) "https://hook" None None
                false false) = 1000.
Proof.
  refine (proj1 (proj2 (proj2 (proj2
            (numeric_settings_are_never_zero None None None (Some 0)
               "https://hook" None None false false)))) _).
  by right.
Defined.

(** ** The masked webhook URL *)

Lemma splitLast_none line : hasSlash line = false -> splitLast line = None.
Proof.
  induction line as [|c rest IH]; simpl; [done|].
  intros [Hc Hrest]%orb_false_elim. by rewrite IH, Hc.
Qed.

Lemma splitLast_some before after :
  hasSlash after = false ->
  splitLast (before +:+ String slash after) = Some (before, after).
Proof.
  intros Hafter. induction before as [|c before IH]; simpl.
  - by rewrite splitLast_none.
  - by rewrite IH.
Qed.

Lemma hasSlash_split line :
  hasSlash line = true ->
  exists before after,
    line = before +:+ String slash after /\ hasSlash after = false.
Proof.
  induction line as [|c rest IH]; simpl; [done|].
  destruct (hasSlash rest) eqn:Hrest.
  - intros _. destruct (IH eq_refl) as (before & after & -> & Hafter).
    by exists (String c before), after.
  - rewrite orb_false_r. intros ->%Ascii.eqb_eq. by exists EmptyString, rest.
Qed.

(** X16: the line the container prints for the webhook URL keeps the
    text up to the last [/] and replaces what follows it by
    [***masked***], so two URLs that differ in their last segment only
    are printed alike; a value without any [/] is printed as it is; and
    masking a masked line changes nothing. *)
Theorem maskLine_hides_the_last_segment :
  (forall before after,
      hasSlash after = false ->
      maskLine (before +:+ "/" +:+ after) = before +:+ "/***masked***")
  /\ (forall line, hasSlash line = false -> maskLine line = line)
  /\ (forall line, maskLine (maskLine line) = maskLine line).
Proof.
  assert (forall before after,
            hasSlash after = false ->
            maskLine (before +:+ String slash after)
            = before +:+ "/***masked***") as Hmask.
  { intros before after Hafter. unfold maskLine.
    by rewrite splitLast_some. }
  assert (forall line, hasSlash line = false -> maskLine line = line)
    as Hclear.
  { intros line Hline. unfold maskLine. by rewrite splitLast_none. }
  split_and!; [exact Hmask|exact Hclear|].
  intros line. destruct (hasSlash line) eqn:Hline.
  - destruct (hasSlash_split line Hline) as (before & after & -> & Hafter).
    rewrite Hmask by done.
    by apply (Hmask before "***masked***").
  - rewrite (Hclear line Hline). exact (Hclear line Hline).
Qed.

Lemma maskLine_hides_the_last_segment_witness :
  maskLine ("https://open.larksuite.com/open-apis/bot/v2/hook" +:+ "/"
            +:+ "2f0c1d3e-secret")
  = "https://open.larksuite.com/open-apis/bot/v2/hook" +:+ "/***masked***".
Proof.
  refine (proj1 maskLine_hides_the_last_segment
            "https://open.larksuite.com/open-apis/bot/v2/hook"
            "2f0c1d3e-secret" _).
  reflexivity.
Defined.

(** ** A cycle in any state of the map *)

Lemma checkAgainst_none config env url w :
  exists e, eval (checkAgainst config env url None) w = Thrown e.
Proof.
  unfold eval, checkAgainst, mbind, M_bind, bind, tryCatch.
  rewrite makeHttpRequest_run. simpl.
  destruct (outcome (probeRun config (net env) url)) as [[code|]|e]; simpl;
    eauto.
  destruct (includes (successStatusCodes config) code); simpl; eauto.
  destruct (enableVerboseLogging config); simpl; eauto.
Qed.

(** X17: a cycle always resolves, in every state of the status map, and
    its two counters are not negative and add up to the number of URLs;
    when no URL has a record, every check rejects and every target
    counts as down. *)
Theorem cycle_always_settles config envs w :
  (exists upCount downCount,
      eval (performHealthCheck config envs) w = Normal (upCount, downCount)
      /\ 0 <= upCount /\ 0 <= downCount
      /\ upCount + downCount = Z.of_nat (length (serverUrls config)))
  /\ ((forall u, u ∈ serverUrls config -> serverStatus w !! u = None) ->
      eval (performHealthCheck config envs) w
      = Normal (0, Z.of_nat (length (serverUrls config)))).
Proof.
  unfold eval, performHealthCheck, mbind, M_bind, bind, dateNow, console,
    emit. simpl.
  match goal with
  | |- context [allSettled ?t ?ps ?w0] =>
      destruct (allSettled_total t ps w0) as (rs & w' & -> & Hlen & Hrs)
  end.
  simpl. rewrite tally_counts. simpl.
  pose proof (filter_split_length (fun r => fulfilledUp r = true) rs)
    as Hsplit.
  cbv beta in Hsplit.
  unfold checkPromises in Hlen. rewrite length_imap in Hlen.
  split.
  - eexists _, _. split; [reflexivity|]. lia.
  - intros Hnone.
    assert (filter (fun r => fulfilledUp r = true) rs = []) as Hup.
    { apply elem_of_nil_inv.
      intros r [Hr [i Hi]%list_elem_of_lookup]%list_elem_of_filter.
      destruct (Hrs i r Hi) as (p & w1 & Hp & ->).
      unfold checkPromises in Hp. rewrite list_lookup_imap in Hp.
      destruct (serverUrls config !! i) as [u|] eqn:Hu; [|done].
      simpl in Hp. injection Hp as <-.
      rewrite (Hnone u) in Hr by (by apply (list_elem_of_lookup_2 _ i)).
      destruct (checkAgainst_none config (envs i) u w1) as [e He].
      by rewrite He in Hr. }
    rewrite Hup in Hsplit |- *. simpl in *. do 2 f_equal. lia.
Qed.

Lemma cycle_always_settles_witness :
  eval (performHealthCheck exampleConfig (fun _ => answers 200 40)) (boot 0)
  = Normal (0, Z.of_nat (length (serverUrls exampleConfig))).
Proof.
  refine (proj2 (cycle_always_settles exampleConfig (fun _ => answers 200 40)
                   (boot 0)) _).
  intros u _. reflexivity.
Defined.
